(** * satellitealt-app: the altitude query page ([src/app/page.tsx])

    A shallow embedding of the [Home] component: the local-time
    normaliser [toUTCISOString], the submit handler [handleSubmit] with
    its three state cells, the form in front of it, the render of the
    cells and the statistics card.  JavaScript numbers
    are IEEE 754 binary64 values (Rocq's primitive floats), time values
    are integers (milliseconds since the epoch), strings are sequences of
    bytes (the UTF-8 encoding of the JavaScript string). *)

From Stdlib Require Import ZArith Lia List Bool Ascii String.
From Stdlib Require Import PrimFloat FloatOps SpecFloat FloatAxioms.
From Stdlib Require Uint63.
From Stdlib Require Import DecimalString DecimalN DecimalPos.
Import ListNotations.

Local Open Scope string_scope.
Local Open Scope Z_scope.

Set Warnings "-register-all".

(* ================================================================== *)
(** * Part I: the model                                                *)
(* ================================================================== *)

(** ** The host platform

    What the page takes from the browser and the build: the local time
    zone, [Date.parse] on strings outside the two forms the page itself
    produces, the decimal rendering of finite numbers, the backend
    address baked in at build time, the length of an argument list, and
    the constraint validation of the form's inputs. *)

Class Platform : Type := {
  (** [LocalTZA(t, false)]: the offset of local time from UTC, in
      milliseconds, at the local time value [t]. *)
  LocalTZA : Z -> Z;
  (** [Date.parse] on a string that is not a date-time of the form
      [YYYY-MM-DDTHH:mm:ss] with or without a final [Z]: other instances
      of the Date Time String Format and the implementation-defined
      fallback formats.  [None] is NaN. *)
  Date_parse_other : string -> option Z;
  (** [Number::toString] on a finite number. *)
  Number_toString_finite : float -> string;
  (** The message of the TypeError raised when an object cannot be
      converted to a primitive value. *)
  TypeError_cannot_convert : string;
  (** Whether [Date.parse] takes a day of the month up to 31 in every
      month and carries the excess into the next month (as V8 does), or
      refuses a day the month does not have (as SpiderMonkey does). *)
  Date_day_overflow : bool;
  (** [process.env.NEXT_PUBLIC_BACKEND_URL]; [None] is [undefined]. *)
  NEXT_PUBLIC_BACKEND_URL : option string;
  (** The most arguments a call can take: [f(...array)] throws a
      RangeError on a longer array. *)
  arguments_limit : Z;
  (** Constraint validation of an [<input type="number" required>] with
      the given [min] and [max] and the default step, on a value that is
      not empty and is not a string of digits writing an integer below
      2^53: a sign, a fraction, an exponent, a longer integer, or no
      number at all. *)
  Input_number_other : Z -> option Z -> string -> bool;
  (** Constraint validation of an
      [<input type="datetime-local" required step="1">] on a value that
      is not empty. *)
  Input_datetime_local : string -> bool
}.

(** ** Decimal digits *)

Definition digit_char (d : Z) : ascii :=
  match d with
  | 1 => "1" | 2 => "2" | 3 => "3" | 4 => "4" | 5 => "5"
  | 6 => "6" | 7 => "7" | 8 => "8" | 9 => "9" | _ => "0"
  end%char.

Definition digit_value (c : ascii) : option Z :=
  let n := Z.of_nat (nat_of_ascii c) in
  if (48 <=? n) && (n <=? 57) then Some (n - 48) else None.

(** [pad n v]: the last [n] decimal digits of [v], most significant
    first (a zero-padded field when [0 <= v < 10^n]). *)
Fixpoint pad (n : nat) (v : Z) : string :=
  match n with
  | O => EmptyString
  | S n' => pad n' (v / 10) ++ String (digit_char (v mod 10)) EmptyString
  end.

(** The decimal representation of a non-negative integer, ["0"] for zero. *)
Definition decimal (n : Z) : string :=
  NilZero.string_of_uint (N.to_uint (Z.to_N n)).

(** The number that a string of decimal digits writes. *)
Definition digits_value (s : string) : option Z :=
  option_map (fun d => Z.of_N (N.of_uint d)) (NilZero.uint_of_string s).

(** ** Strings *)

(** [strip_prefix p s]: what follows [p] in [s] when [s] starts with [p]. *)
Fixpoint strip_prefix (p s : string) : option string :=
  match p with
  | EmptyString => Some s
  | String a p' =>
      match s with
      | EmptyString => None
      | String b s' => if (a =? b)%char then strip_prefix p' s' else None
      end
  end.

(** [s.replace(searchValue, replaceValue)] for a string pattern and a
    replacement without [$]: the first occurrence is replaced. *)
Fixpoint replace (searchValue replaceValue s : string) : string :=
  match strip_prefix searchValue s with
  | Some rest => replaceValue ++ rest
  | None =>
      match s with
      | EmptyString => EmptyString
      | String c s' => String c (replace searchValue replaceValue s')
      end
  end.

(** Whether the character [c] occurs in [s]. *)
Fixpoint occurs (c : ascii) (s : string) : bool :=
  match s with
  | EmptyString => false
  | String c' s' => (c' =? c)%char || occurs c s'
  end.

(** ** [URLSearchParams] (URL Standard, application/x-www-form-urlencoded) *)

Definition hex_digit (n : nat) : ascii :=
  match n with
  | 0 => "0" | 1 => "1" | 2 => "2" | 3 => "3" | 4 => "4" | 5 => "5"
  | 6 => "6" | 7 => "7" | 8 => "8" | 9 => "9" | 10 => "A" | 11 => "B"
  | 12 => "C" | 13 => "D" | 14 => "E" | _ => "F"
  end%nat%char.

(** The bytes the serializer leaves as they are: ASCII alphanumerics and
    [*], [-], [.], [_]. *)
Definition urlencoded_safe (c : ascii) : bool :=
  let n := nat_of_ascii c in
  ((48 <=? n) && (n <=? 57) || (65 <=? n) && (n <=? 90)
   || (97 <=? n) && (n <=? 122)
   || (n =? 42) || (n =? 45) || (n =? 46) || (n =? 95))%nat.

Definition urlencoded_byte (c : ascii) : string :=
  if (c =? " ")%char then "+"
  else if urlencoded_safe c then String c EmptyString
  else
    let n := nat_of_ascii c in
    String "%" (String (hex_digit (n / 16)) (String (hex_digit (n mod 16))
      EmptyString)).

Fixpoint urlencoded (s : string) : string :=
  match s with
  | EmptyString => EmptyString
  | String c s' => urlencoded_byte c ++ urlencoded s'
  end.

(** [new URLSearchParams(record).toString()]: the pairs in the order of
    the record's keys. *)
Fixpoint URLSearchParams_toString (params : list (string * string)) : string :=
  match params with
  | [] => EmptyString
  | (name, value) :: rest =>
      urlencoded name ++ "=" ++ urlencoded value
      ++ match rest with
         | [] => EmptyString
         | _ => "&" ++ URLSearchParams_toString rest
         end
  end.

(** The receiving side, used to state what a query string carries: the
    application/x-www-form-urlencoded parser of the URL Standard. *)

Definition hex_value (c : ascii) : option nat :=
  let n := nat_of_ascii c in
  if ((48 <=? n) && (n <=? 57))%nat then Some (n - 48)%nat
  else if ((65 <=? n) && (n <=? 70))%nat then Some (n - 55)%nat
  else if ((97 <=? n) && (n <=? 102))%nat then Some (n - 87)%nat
  else None.

Fixpoint urldecoded (s : string) : string :=
  match s with
  | EmptyString => EmptyString
  | String c s1 =>
      if (c =? "+")%char then String " " (urldecoded s1)
      else if (c =? "%")%char then
        match s1 with
        | String a (String b s3) =>
            match hex_value a, hex_value b with
            | Some x, Some y =>
                String (ascii_of_nat (16 * x + y)) (urldecoded s3)
            | _, _ => String c (urldecoded s1)
            end
        | _ => String c (urldecoded s1)
        end
      else String c (urldecoded s1)
  end.

(** [split_at sep s]: [s] up to the first [sep], and what follows it. *)
Fixpoint split_at (sep : ascii) (s : string) : string * option string :=
  match s with
  | EmptyString => (EmptyString, None)
  | String c s' =>
      if (c =? sep)%char then (EmptyString, Some s')
      else let '(a, b) := split_at sep s' in (String c a, b)
  end.

(** The sequences between the [&] of a query string. *)
Fixpoint query_sequences (s : string) : list string :=
  match s with
  | EmptyString => [EmptyString]
  | String c s' =>
      if (c =? "&")%char then EmptyString :: query_sequences s'
      else match query_sequences s' with
           | a :: rest => String c a :: rest
           | [] => [String c EmptyString]
           end
  end.

Definition query_pair (sequence : string) : string * string :=
  match split_at "=" sequence with
  | (name, None) => (urldecoded name, EmptyString)
  | (name, Some value) => (urldecoded name, urldecoded value)
  end.

Definition urlencoded_parse (s : string) : list (string * string) :=
  map query_pair
    (filter (fun q => negb (q =? "")%string) (query_sequences s)).

(** ** Time values (ECMA-262 21.4.1) *)

Definition msPerDay : Z := 86400000.
Definition msPerHour : Z := 3600000.
Definition msPerMinute : Z := 60000.
Definition msPerSecond : Z := 1000.

Definition Day (t : Z) : Z := t / msPerDay.
Definition TimeWithinDay (t : Z) : Z := t mod msPerDay.

Definition DaysInYear (y : Z) : Z :=
  if y mod 400 =? 0 then 366
  else if y mod 100 =? 0 then 365
  else if y mod 4 =? 0 then 366
  else 365.

Definition DayFromYear (y : Z) : Z :=
  365 * (y - 1970) + (y - 1969) / 4 - (y - 1901) / 100 + (y - 1601) / 400.

Definition TimeFromYear (y : Z) : Z := msPerDay * DayFromYear y.

(** The largest [y] with [DayFromYear y <= d]: an estimate from the mean
    length of a year, corrected by one year either way
    ([YearFromDay_bracket] below). *)
Definition YearFromDay (d : Z) : Z :=
  let y := 1970 + (400 * d) / 146097 in
  if d <? DayFromYear y then y - 1
  else if DayFromYear (y + 1) <=? d then y + 1
  else y.

Definition YearFromTime (t : Z) : Z := YearFromDay (Day t).

Definition InLeapYear (t : Z) : Z :=
  if DaysInYear (YearFromTime t) =? 366 then 1 else 0.

Definition DayWithinYear (t : Z) : Z := Day t - DayFromYear (YearFromTime t).

Definition MonthFromTime (t : Z) : Z :=
  let d := DayWithinYear t in
  let leap := InLeapYear t in
  if d <? 31 then 0
  else if d <? 59 + leap then 1
  else if d <? 90 + leap then 2
  else if d <? 120 + leap then 3
  else if d <? 151 + leap then 4
  else if d <? 181 + leap then 5
  else if d <? 212 + leap then 6
  else if d <? 243 + leap then 7
  else if d <? 273 + leap then 8
  else if d <? 304 + leap then 9
  else if d <? 334 + leap then 10
  else 11.

Definition DateFromTime (t : Z) : Z :=
  let d := DayWithinYear t in
  let leap := InLeapYear t in
  match MonthFromTime t with
  | 0 => d + 1
  | 1 => d - 30
  | 2 => d - 58 - leap
  | 3 => d - 89 - leap
  | 4 => d - 119 - leap
  | 5 => d - 150 - leap
  | 6 => d - 180 - leap
  | 7 => d - 211 - leap
  | 8 => d - 242 - leap
  | 9 => d - 272 - leap
  | 10 => d - 303 - leap
  | _ => d - 333 - leap
  end.

Definition HourFromTime (t : Z) : Z := (t / msPerHour) mod 24.
Definition MinFromTime (t : Z) : Z := (t / msPerMinute) mod 60.
Definition SecFromTime (t : Z) : Z := (t / msPerSecond) mod 60.
Definition msFromTime (t : Z) : Z := t mod msPerSecond.

Definition MakeTime (hour min sec ms : Z) : Z :=
  hour * msPerHour + min * msPerMinute + sec * msPerSecond + ms.

(** The number of days of the year [y] before its month [mn] (0 to 11). *)
Definition DaysBeforeMonth (y mn : Z) : Z :=
  let leap := if DaysInYear y =? 366 then 1 else 0 in
  match mn with
  | 0 => 0
  | 1 => 31
  | 2 => 59 + leap
  | 3 => 90 + leap
  | 4 => 120 + leap
  | 5 => 151 + leap
  | 6 => 181 + leap
  | 7 => 212 + leap
  | 8 => 243 + leap
  | 9 => 273 + leap
  | 10 => 304 + leap
  | _ => 334 + leap
  end.

(** [MakeDay]: the day number of the first of the month, plus the date. *)
Definition MakeDay (year month date : Z) : Z :=
  let ym := year + month / 12 in
  let mn := month mod 12 in
  DayFromYear ym + DaysBeforeMonth ym mn + date - 1.

Definition MakeDate (day time : Z) : Z := day * msPerDay + time.

(** [TimeClip]; [None] is NaN. *)
Definition TimeClip (time : Z) : option Z :=
  if 8640000000000000 <? Z.abs time then None else Some time.

Definition DaysInMonth (y m : Z) : Z :=
  match m with
  | 2 => if DaysInYear y =? 366 then 29 else 28
  | 4 | 6 | 9 | 11 => 30
  | _ => 31
  end.

(** ** [Date.prototype.toISOString] (ECMA-262 21.4.4.36) *)

Definition year_string (y : Z) : string :=
  if (0 <=? y) && (y <=? 9999) then pad 4 y
  else (if 0 <=? y then "+" else "-") ++ pad 6 (Z.abs y).

Definition date_time_string (tv : Z) : string :=
  year_string (YearFromTime tv) ++ "-" ++ pad 2 (MonthFromTime tv + 1)
  ++ "-" ++ pad 2 (DateFromTime tv) ++ "T" ++ pad 2 (HourFromTime tv)
  ++ ":" ++ pad 2 (MinFromTime tv) ++ ":" ++ pad 2 (SecFromTime tv).

Definition toISOString (tv : Z) : string :=
  date_time_string tv ++ "." ++ pad 3 (msFromTime tv) ++ "Z".

(** A local date and time written [yyyy-MM-dd'T'HH:mm:ss], the pattern
    the page gives [format] for the initial values of its two time
    inputs. *)
Definition local_date_time (y mo d h mi sec : Z) : string :=
  pad 4 y ++ "-" ++ pad 2 mo ++ "-" ++ pad 2 d ++ "T" ++ pad 2 h
  ++ ":" ++ pad 2 mi ++ ":" ++ pad 2 sec.

(** ** [Date.parse] (ECMA-262 21.4.3.2, 21.4.1.32) *)

Record DateTimeFields : Type := {
  field_year : Z;
  field_month : Z;
  field_day : Z;
  field_hour : Z;
  field_minute : Z;
  field_second : Z;
  field_utc : bool      (* a final [Z] *)
}.

Fixpoint read_digits (n : nat) (acc : Z) (s : string) : option (Z * string) :=
  match n with
  | O => Some (acc, s)
  | S n' =>
      match s with
      | EmptyString => None
      | String c s' =>
          match digit_value c with
          | Some d => read_digits n' (10 * acc + d) s'
          | None => None
          end
      end
  end.

Definition read_char (c : ascii) (s : string) : option string :=
  match s with
  | EmptyString => None
  | String c' s' => if (c' =? c)%char then Some s' else None
  end.

(** [YYYY], or an expanded year: a sign and six digits, [-000000]
    excluded. *)
Definition read_year (s : string) : option (Z * string) :=
  match s with
  | String "+" s' => read_digits 6 0 s'
  | String "-" s' =>
      match read_digits 6 0 s' with
      | Some (v, rest) => if v =? 0 then None else Some (- v, rest)
      | None => None
      end
  | _ => read_digits 4 0 s
  end.

Notation "' p <- e ;; k" :=
  (match e with Some p => k | None => None end)
  (at level 61, p pattern, e at next level, right associativity).

(** The syntax [YYYY-MM-DDTHH:mm:ss] with an optional final [Z]. *)
Definition read_date_time (s : string) : option DateTimeFields :=
  ' (y, s) <- read_year s ;;
  ' s <- read_char "-" s ;;
  ' (mo, s) <- read_digits 2 0 s ;;
  ' s <- read_char "-" s ;;
  ' (d, s) <- read_digits 2 0 s ;;
  ' s <- read_char "T" s ;;
  ' (h, s) <- read_digits 2 0 s ;;
  ' s <- read_char ":" s ;;
  ' (mi, s) <- read_digits 2 0 s ;;
  ' s <- read_char ":" s ;;
  ' (sec, s) <- read_digits 2 0 s ;;
  let fields utc :=
    {| field_year := y; field_month := mo; field_day := d; field_hour := h;
       field_minute := mi; field_second := sec; field_utc := utc |} in
  match s with
  | EmptyString => Some (fields false)
  | String "Z" EmptyString => Some (fields true)
  | _ => None
  end.

Section DateParse.
Context {P : Platform}.

(** The bounds of the format's elements: month 01 to 12, day 01 to 31
    (or to the length of the month), 00:00:00 to 24:00:00. *)
Definition fields_in_bounds (f : DateTimeFields) : bool :=
  (1 <=? field_month f) && (field_month f <=? 12)
  && (1 <=? field_day f)
  && (field_day f <=?
      if Date_day_overflow then 31
      else DaysInMonth (field_year f) (field_month f))
  && (field_hour f <=? 24) && (field_minute f <=? 59)
  && (field_second f <=? 59)
  && (if field_hour f =? 24
      then (field_minute f =? 0) && (field_second f =? 0) else true).

(** [UTC(t)]: from a local time value to a UTC one. *)
Definition UTC (t : Z) : Z := t - LocalTZA t.

Definition time_value_of_fields (f : DateTimeFields) : option Z :=
  if fields_in_bounds f then
    let day := MakeDay (field_year f) (field_month f - 1) (field_day f) in
    let time := MakeTime (field_hour f) (field_minute f) (field_second f) 0 in
    let tv := MakeDate day time in
    TimeClip (if field_utc f then tv else UTC tv)
  else None.

(** [new Date(s).getTime()] for a string [s]; [None] is NaN.  A date-time
    without offset is a local time. *)
Definition Date_parse (s : string) : option Z :=
  match read_date_time s with
  | Some f => time_value_of_fields f
  | None => Date_parse_other s
  end.

End DateParse.

(** ** Numbers *)

Section Numbers.
Context {P : Platform}.

(** [Number::toString]. *)
Definition Number_toString (x : float) : string :=
  if is_nan x then "NaN"
  else if (x =? infinity)%float then "Infinity"
  else if (x =? neg_infinity)%float then "-Infinity"
  else Number_toString_finite x.

(** [Math.min] on its arguments, coerced to numbers, ECMA-262
    21.3.2.25: the scan starts from [+Infinity], a NaN argument makes the
    result NaN, and [-0] is below [+0].  How the page calls it is
    [spread] below. *)
Fixpoint Math_min_from (lowest : float) (coerced : list float) : float :=
  match coerced with
  | [] => lowest
  | number :: rest =>
      if is_nan number then nan
      else
        let lowest :=
          if is_zero number && get_sign number
             && is_zero lowest && negb (get_sign lowest)
          then neg_zero else lowest in
        let lowest := if (number <? lowest)%float then number else lowest in
        Math_min_from lowest rest
  end.

Definition Math_min (coerced : list float) : float :=
  Math_min_from infinity coerced.

(** [Math.max] on its arguments, coerced to numbers, ECMA-262
    21.3.2.24. *)
Fixpoint Math_max_from (highest : float) (coerced : list float) : float :=
  match coerced with
  | [] => highest
  | number :: rest =>
      if is_nan number then nan
      else
        let highest :=
          if is_zero number && negb (get_sign number)
             && is_zero highest && get_sign highest
          then zero else highest in
        let highest := if (highest <? number)%float then number else highest in
        Math_max_from highest rest
  end.

Definition Math_max (coerced : list float) : float :=
  Math_max_from neg_infinity coerced.

(** [f(...array)], the call of [Math.min(...data.points.map(...))] and
    of [Math.max(...)]: every element of the array is an argument, and
    the call throws a RangeError ([None]) when they are more than a call
    can take. *)
Definition spread (f : list float -> float) (array : list float)
  : option float :=
  if Z.of_nat (List.length array) <=? arguments_limit then Some (f array)
  else None.

(** The integer [n] for which [n / 10^f - m * 2^e] is as close to zero as
    possible, the larger one when there are two. *)
Definition nearest_scaled (m : positive) (e : Z) (f : nat) : Z :=
  let num := Z.pos m * 10 ^ Z.of_nat f in
  if 0 <=? e then num * 2 ^ e
  else (2 * num + 2 ^ (- e)) / 2 ^ (1 - e).

(** Step 10 to 12 of [Number.prototype.toFixed]: the digits of [n] with
    a point before the last [f] of them. *)
Definition fixed_digits (n : Z) (f : nat) : string :=
  let m := decimal n in
  match f with
  | O => m
  | _ =>
      let k := String.length m in
      let m := if (k <=? f)%nat then pad (f + 1 - k) 0 ++ m else m in
      let k := String.length m in
      substring 0 (k - f) m ++ "." ++ substring (k - f) f m
  end.

(** [x.toFixed(fractionDigits)], ECMA-262 21.1.3.3, for
    [0 <= fractionDigits <= 100]. *)
Definition toFixed (x : float) (fractionDigits : nat) : string :=
  match Prim2SF x with
  | S754_nan => "NaN"
  | S754_infinity false => "Infinity"
  | S754_infinity true => "-Infinity"
  | S754_zero _ => fixed_digits 0 fractionDigits
  | S754_finite s m e =>
      let sign := if s then "-" else "" in
      if 10 ^ 21 <=? (Z.pos m * 2 ^ e)
      then sign ++ Number_toString_finite (abs x)
      else sign ++ fixed_digits (nearest_scaled m e fractionDigits) fractionDigits
  end.

(** The length of an array as a number. *)
Definition length_number {A} (l : list A) : float :=
  of_uint63 (Uint63.of_Z (Z.of_nat (List.length l))).

End Numbers.

(** ** The response interfaces *)

Record DataPoint : Type := {
  t : string;
  alt_km : float
}.

(** ** The statistics card

    The four cells of the card, each an expression over [data.points]
    evaluated when the results are rendered: the value of each
    expression, which is what the cell shows when the spread of the
    series into arguments is taken, and [renderedStatistics], the card
    as the render evaluates it. *)

Section Statistics.
Context {P : Platform}.

Definition minAltitude (points : list DataPoint) : float :=
  Math_min (map alt_km points).

Definition maxAltitude (points : list DataPoint) : float :=
  Math_max (map alt_km points).

Definition avgAltitude (points : list DataPoint) : float :=
  (fold_left (fun sum p => sum + alt_km p) points 0
   / length_number points)%float.

Definition altitudeRange (points : list DataPoint) : float :=
  (Math_max (map alt_km points) - Math_min (map alt_km points))%float.

Record StatisticsCard : Type := {
  shown_min : string;
  shown_max : string;
  shown_avg : string;
  shown_range : string
}.

Definition statisticsCard (points : list DataPoint) : StatisticsCard :=
  {| shown_min := toFixed (minAltitude points) 2;
     shown_max := toFixed (maxAltitude points) 2;
     shown_avg := toFixed (avgAltitude points) 2;
     shown_range := toFixed (altitudeRange points) 2 |}.

(** The card as the render evaluates it: [None] when [Math.min(...)],
    the first of its spreads, throws. *)
Definition renderedStatistics (points : list DataPoint)
  : option StatisticsCard :=
  match spread Math_min (map alt_km points),
        spread Math_max (map alt_km points) with
  | Some _, Some _ => Some (statisticsCard points)
  | _, _ => None
  end.

End Statistics.

(** ** JavaScript values

    What [response.json()] can produce, and [undefined]. *)

Inductive JsValue : Type :=
| JUndefined
| JNull
| JBool (b : bool)
| JNumber (x : float)
| JString (s : string)
| JArray (items : list JsValue)
| JObject (properties : list (string * JsValue)).
(* The own properties of an object, each key once. *)

(** What a [throw] carries or a promise rejects with: an instance of
    [Error] (also [TypeError], [SyntaxError], ...) with its message, or a
    value that is not one. *)
Inductive Thrown : Type :=
| ErrorObject (message : string)
| NonError.

Inductive Settled (A : Type) : Type :=
| Fulfilled (value : A)
| Rejected (reason : Thrown).
Arguments Fulfilled {A} value.
Arguments Rejected {A} reason.

(** ToBoolean. *)
Definition truthy (v : JsValue) : bool :=
  match v with
  | JUndefined | JNull => false
  | JBool b => b
  | JNumber x => negb (is_zero x || is_nan x)
  | JString s => negb (s =? "")%string
  | JArray _ | JObject _ => true
  end.

Fixpoint own_property (key : string) (properties : list (string * JsValue))
  : option JsValue :=
  match properties with
  | [] => None
  | (k, v) :: rest => if (k =? key)%string then Some v else own_property key rest
  end.

(** [errorData?.detail]: [undefined] on [null] and [undefined]; on an
    object its own property, if any (nothing it inherits is called
    [detail]); [undefined] on every other value. *)
Definition optional_detail (errorData : JsValue) : JsValue :=
  match errorData with
  | JObject properties =>
      match own_property "detail" properties with
      | Some v => v
      | None => JUndefined
      end
  | _ => JUndefined
  end.

(** [a || b]. *)
Definition or_else (a b : JsValue) : JsValue := if truthy a then a else b.

Section Conversions.
Context {P : Platform}.

(** ToString.  An array is joined with commas, [null] and [undefined]
    elements as empty strings; an object is ["[object Object]"], unless a
    property of its own hides [Object.prototype.toString] (no JSON value
    is callable), and then the conversion raises a TypeError. *)
Fixpoint ToString (v : JsValue) : Thrown + string :=
  match v with
  | JUndefined => inr "undefined"
  | JNull => inr "null"
  | JBool b => inr (if b then "true" else "false")
  | JNumber x => inr (Number_toString x)
  | JString s => inr s
  | JArray items =>
      (fix join (l : list JsValue) : Thrown + string :=
         match l with
         | [] => inr EmptyString
         | x :: rest =>
             let element :=
               match x with
               | JUndefined | JNull => inr EmptyString
               | _ => ToString x
               end in
             match element, rest with
             | inl e, _ => inl e
             | inr sx, [] => inr sx
             | inr sx, _ =>
                 match join rest with
                 | inl e => inl e
                 | inr sr => inr (sx ++ "," ++ sr)
                 end
             end
         end) items
  | JObject properties =>
      match own_property "toString" properties with
      | Some _ => inl (ErrorObject TypeError_cannot_convert)
      | None => inr "[object Object]"
      end
  end.

End Conversions.

(** ** Asynchronous functions

    An [async] function is a tree of its effects: writes to the three
    state cells, and the two awaits of the page, each with the rest of
    the function as a continuation of the settled promise. *)

Record Response : Type := {
  ok : bool;
  (** What [response.json()] settles to: the body parsed, or the
      rejection when the body is not JSON or cannot be read. *)
  json : Settled JsValue
}.

Inductive Prog (A : Type) : Type :=
| Return (a : A)
| Throw (e : Thrown)
| SetLoading (b : bool) (k : Prog A)
| SetError (e : option string) (k : Prog A)
| SetData (d : JsValue) (k : Prog A)
| AwaitFetch (url : string) (k : Settled Response -> Prog A)
| AwaitJson (r : Response) (k : Settled JsValue -> Prog A).
Arguments Return {A} a.
Arguments Throw {A} e.
Arguments SetLoading {A} b k.
Arguments SetError {A} e k.
Arguments SetData {A} d k.
Arguments AwaitFetch {A} url k.
Arguments AwaitJson {A} r k.

Fixpoint bind {A B} (p : Prog A) (f : A -> Prog B) : Prog B :=
  match p with
  | Return a => f a
  | Throw e => Throw e
  | SetLoading b k => SetLoading b (bind k f)
  | SetError e k => SetError e (bind k f)
  | SetData d k => SetData d (bind k f)
  | AwaitFetch url k => AwaitFetch url (fun r => bind (k r) f)
  | AwaitJson r k => AwaitJson r (fun v => bind (k v) f)
  end.

Notation "x <- p ;; q" := (bind p (fun x => q))
  (at level 61, p at next level, right associativity).
Notation "p ;; q" := (bind p (fun _ => q))
  (at level 61, right associativity).

(** [try { p } catch (err) { handler err }]. *)
Fixpoint try_catch {A} (p : Prog A) (handler : Thrown -> Prog A) : Prog A :=
  match p with
  | Return a => Return a
  | Throw e => handler e
  | SetLoading b k => SetLoading b (try_catch k handler)
  | SetError e k => SetError e (try_catch k handler)
  | SetData d k => SetData d (try_catch k handler)
  | AwaitFetch url k => AwaitFetch url (fun r => try_catch (k r) handler)
  | AwaitJson r k => AwaitJson r (fun v => try_catch (k v) handler)
  end.

(** [try { p } finally { finalizer }]. *)
Fixpoint try_finally {A} (p : Prog A) (finalizer : Prog unit) : Prog A :=
  match p with
  | Return a => finalizer ;; Return a
  | Throw e => finalizer ;; Throw e
  | SetLoading b k => SetLoading b (try_finally k finalizer)
  | SetError e k => SetError e (try_finally k finalizer)
  | SetData d k => SetData d (try_finally k finalizer)
  | AwaitFetch url k => AwaitFetch url (fun r => try_finally (k r) finalizer)
  | AwaitJson r k => AwaitJson r (fun v => try_finally (k v) finalizer)
  end.

Definition setLoading (b : bool) : Prog unit := SetLoading b (Return tt).
Definition setError (e : option string) : Prog unit := SetError e (Return tt).
Definition setData (d : JsValue) : Prog unit := SetData d (Return tt).

(** [await p]: the value of a fulfilled promise; a rejection is thrown. *)
Definition awaited {A} (r : Settled A) : Prog A :=
  match r with
  | Fulfilled a => Return a
  | Rejected e => Throw e
  end.

(** [await fetch(url)]. *)
Definition fetch (url : string) : Prog Response := AwaitFetch url awaited.

(** [await response.json()]. *)
Definition response_json (response : Response) : Prog JsValue :=
  AwaitJson response awaited.

(** A call that returns or throws. *)
Definition call {A} (r : Thrown + A) : Prog A :=
  match r with
  | inl e => Throw e
  | inr a => Return a
  end.

(** ** The component [Home] *)

(** The four inputs of the form, as the render that created the handler
    saw them. *)
Record Inputs : Type := {
  noradId : string;
  startTime : string;
  endTime : string;
  stepSeconds : string
}.

Section Home.
Context {P : Platform}.

Definition toUTCISOString (localDateTime : string) : Thrown + string :=
  match Date_parse localDateTime with               (* d.getTime() *)
  | None => inl (ErrorObject "Invalid date/time format")
  | Some tv => inr (replace ".000Z" "Z" (toISOString tv))
  end.

(** [process.env.NEXT_PUBLIC_BACKEND_URL || "http://127.0.0.1:8000"]. *)
Definition backendUrl : string :=
  match NEXT_PUBLIC_BACKEND_URL with
  | Some url => if (url =? "")%string then "http://127.0.0.1:8000" else url
  | None => "http://127.0.0.1:8000"
  end.

Definition altitude_params (n startUTC endUTC step_seconds : string)
  : list (string * string) :=
  [("n", n); ("start", startUTC); ("end", endUTC);
   ("step_seconds", step_seconds)].

Definition altitude_url (n startUTC endUTC step_seconds : string) : string :=
  backendUrl ++ "/altitude?"
  ++ URLSearchParams_toString (altitude_params n startUTC endUTC step_seconds).

Definition fallback_detail : string := "Failed to fetch altitude data".

(** [throw new Error(detail)]: the message is [detail] converted to a
    string; a conversion that throws throws in its place. *)
Definition throw_new_Error (detail : JsValue) : Prog unit :=
  match ToString detail with
  | inr message => Throw (ErrorObject message)
  | inl e => Throw e
  end.

(** The body of [if (!response.ok) { ... }]. *)
Definition reject_response (response : Response) : Prog unit :=
  detail <-
    try_catch
      (errorData <- response_json response ;;
       Return (or_else (optional_detail errorData) (JString fallback_detail)))
      (fun _ => Return (JString fallback_detail)) ;;
  throw_new_Error detail.

(** [err instanceof Error ? err.message : "An error occurred"]. *)
Definition error_message (err : Thrown) : string :=
  match err with
  | ErrorObject message => message
  | NonError => "An error occurred"
  end.

Definition handleSubmit (i : Inputs) : Prog unit :=
  (* e.preventDefault() *)
  setLoading true ;;
  setError None ;;
  setData JNull ;;
  try_finally
    (try_catch
       (startUTC <- call (toUTCISOString (startTime i)) ;;
        endUTC <- call (toUTCISOString (endTime i)) ;;
        response <-
          fetch (altitude_url (noradId i) startUTC endUTC (stepSeconds i)) ;;
        (if negb (ok response) then reject_response response else Return tt) ;;
        result <- response_json response ;;
        setData result)
       (fun err => setError (Some (error_message err))))
    (setLoading false).

End Home.

(** ** The form

    [<form onSubmit={handleSubmit}>] has no [noValidate]: the browser
    validates the four inputs before it fires the submit event, and fires
    none when an input fails its constraints. *)

Section Form.
Context {P : Platform}.

(** [<input type="number" required min=... max=...>]: the value is
    missing when it is empty; digits that write an integer are that
    number, which is a whole number of steps from [min], and must lie
    between [min] and [max]. *)
Definition number_input_valid (min : Z) (max : option Z) (value : string)
  : bool :=
  if (value =? "")%string then false
  else
    match digits_value value with
    | Some n =>
        if n <? 2 ^ 53
        then (min <=? n)
             && match max with Some m => n <=? m | None => true end
        else Input_number_other min max value
    | None => Input_number_other min max value
    end.

(** [<input type="datetime-local" required step="1">]. *)
Definition datetime_local_valid (value : string) : bool :=
  if (value =? "")%string then false else Input_datetime_local value.

(** The four inputs: [noradId] with [min="1"], [stepSeconds] with
    [min="1" max="3600"], [startTime] and [endTime]. *)
Definition checkValidity (i : Inputs) : bool :=
  number_input_valid 1 None (noradId i)
  && number_input_valid 1 (Some 3600) (stepSeconds i)
  && datetime_local_valid (startTime i)
  && datetime_local_valid (endTime i).

End Form.

(** ** The page at run time

    The three state cells, the requests sent so far, and the calls of
    [handleSubmit] that wait for a promise.  A call is numbered by the
    submission that made it. *)

Record UI : Type := {
  loading : bool;
  error : option string;      (* [None] is [null] *)
  data : JsValue              (* [JNull] is [null] *)
}.

Inductive Waiting : Type :=
| WaitingFetch (k : Settled Response -> Prog unit)
| WaitingJson (r : Response) (k : Settled JsValue -> Prog unit).

(** Where a run of a program stops: at its end, at an exception nobody
    caught, or at an await. *)
Inductive Stop : Type :=
| Finished
| Uncaught (e : Thrown)
| AtFetch (url : string) (k : Settled Response -> Prog unit)
| AtJson (r : Response) (k : Settled JsValue -> Prog unit).

Fixpoint run (p : Prog unit) (u : UI) : UI * Stop :=
  match p with
  | Return _ => (u, Finished)
  | Throw e => (u, Uncaught e)
  | SetLoading b k =>
      run k {| loading := b; error := error u; data := data u |}
  | SetError e k =>
      run k {| loading := loading u; error := e; data := data u |}
  | SetData d k =>
      run k {| loading := loading u; error := error u; data := d |}
  | AwaitFetch url k => (u, AtFetch url k)
  | AwaitJson r k => (u, AtJson r k)
  end.

Record World : Type := {
  ui : UI;
  requests : list string;            (* the URLs fetched, oldest first *)
  calls : list (option Waiting)      (* by submission; [None]: returned *)
}.

Definition initial : World :=
  {| ui := {| loading := false; error := None; data := JNull |};
     requests := [];
     calls := [] |}.

Fixpoint set_call (id : nat) (c : option Waiting) (l : list (option Waiting))
  : list (option Waiting) :=
  match l, id with
  | [], _ => []
  | _ :: rest, O => c :: rest
  | x :: rest, S id' => x :: set_call id' c rest
  end.

(** The call [id] runs [p] up to its next await. *)
Definition advance (w : World) (id : nat) (p : Prog unit) : World :=
  match run p (ui w) with
  | (u, AtFetch url k) =>
      {| ui := u; requests := (requests w ++ [url])%list;
         calls := set_call id (Some (WaitingFetch k)) (calls w) |}
  | (u, AtJson r k) =>
      {| ui := u; requests := requests w;
         calls := set_call id (Some (WaitingJson r k)) (calls w) |}
  | (u, _) =>
      {| ui := u; requests := requests w;
         calls := set_call id None (calls w) |}
  end.

Inductive Event : Type :=
| Submit (i : Inputs)
| FetchSettles (id : nat) (r : Settled Response)
| BodySettles (id : nat).

Section Runtime.
Context {P : Platform}.

(** One event of the page; [None] when the event cannot happen. *)
Definition step (w : World) (ev : Event) : option World :=
  match ev with
  | Submit i =>
      Some (advance {| ui := ui w; requests := requests w;
                       calls := (calls w ++ [None])%list |}
              (List.length (calls w)) (handleSubmit i))
  | FetchSettles id r =>
      match nth_error (calls w) id with
      | Some (Some (WaitingFetch k)) => Some (advance w id (k r))
      | _ => None
      end
  | BodySettles id =>
      match nth_error (calls w) id with
      | Some (Some (WaitingJson r k)) => Some (advance w id (k (json r)))
      | _ => None
      end
  end.

(** The events the submit button lets through: it is
    [disabled={loading}].  What the inputs add to it is [checkValidity],
    in [form_submit] below. *)
Definition enabled (w : World) (ev : Event) : bool :=
  match ev with
  | Submit _ => negb (loading (ui w))
  | _ => true
  end.

(** A submission by the form's own controls, a click on the submit
    button or Enter in a field: [handleSubmit] is called when the button
    is enabled and every input satisfies its constraints, and nothing
    happens otherwise. *)
Definition form_submit (w : World) (i : Inputs) : option World :=
  if enabled w (Submit i) && checkValidity i then step w (Submit i)
  else Some w.

Fixpoint steps (w : World) (evs : list Event) : option World :=
  match evs with
  | [] => Some w
  | ev :: rest =>
      match step w ev with
      | Some w' => steps w' rest
      | None => None
      end
  end.

End Runtime.

(** ** What is left of [handleSubmit] at its awaits *)

Section Continuations.
Context {P : Platform}.

Definition catch_clause (err : Thrown) : Prog unit :=
  setError (Some (error_message err)).

(** After [await fetch(...)]. *)
Definition after_fetch (r : Settled Response) : Prog unit :=
  try_finally
    (try_catch
       (response <- awaited r ;;
        (if negb (ok response) then reject_response response else Return tt) ;;
        result <- response_json response ;;
        setData result)
       catch_clause)
    (setLoading false).

(** After [await response.json()] of a response that is [ok]. *)
Definition after_result (v : Settled JsValue) : Prog unit :=
  try_finally
    (try_catch (result <- awaited v ;; setData result) catch_clause)
    (setLoading false).

(** After [await response.json()] of a response that is not [ok]. *)
Definition after_errorData (response : Response) (v : Settled JsValue)
  : Prog unit :=
  try_finally
    (try_catch
       ((detail <-
           try_catch
             (errorData <- awaited v ;;
              Return (or_else (optional_detail errorData)
                        (JString fallback_detail)))
             (fun _ => Return (JString fallback_detail)) ;;
         throw_new_Error detail) ;;
        result <- response_json response ;;
        setData result)
       catch_clause)
    (setLoading false).

Definition after_body (response : Response) : Settled JsValue -> Prog unit :=
  if ok response then after_result else after_errorData response.

(** The message a response that is not [ok] ends in. *)
Definition request_failed_message (response : Response) : string :=
  match json response with
  | Fulfilled errorData =>
      match ToString (or_else (optional_detail errorData)
                        (JString fallback_detail)) with
      | inr message => message
      | inl e => error_message e
      end
  | Rejected _ => fallback_detail
  end.

End Continuations.

(** ** States and traces *)

Definition pending : UI :=
  {| loading := true; error := None; data := JNull |}.

Definition succeeded (u : UI) (result : JsValue) : UI :=
  {| loading := false; error := error u; data := result |}.

Definition failed (u : UI) (message : string) : UI :=
  {| loading := false; error := Some message; data := data u |}.

(** The four states of a request, read off the three cells; [None] for
    a combination that is none of them. *)
Inductive LifecycleState : Type :=
| Idle
| Pending
| Succeeded (result : JsValue)
| Failed (message : string).

Definition lifecycle (u : UI) : option LifecycleState :=
  match loading u, error u, data u with
  | false, None, JNull => Some Idle
  | true, None, JNull => Some Pending
  | false, None, result => Some (Succeeded result)
  | false, Some message, JNull => Some (Failed message)
  | _, _, _ => None
  end.

(** The calls of [handleSubmit] that have not returned. *)
Definition is_waiting (c : option Waiting) : nat :=
  match c with Some _ => 1%nat | None => 0%nat end.

Definition waiting (calls : list (option Waiting)) : nat :=
  List.length (filter (fun c => match c with Some _ => true | None => false end)
                 calls).

Section Traces.
Context {P : Platform}.

(** What the arrival of a response does to the cells. *)
Definition settle (r : Settled Response) (u : UI) : UI :=
  match r with
  | Rejected e => failed u (error_message e)
  | Fulfilled response =>
      if ok response then
        match json response with
        | Fulfilled result => succeeded u result
        | Rejected e => failed u (error_message e)
        end
      else failed u (request_failed_message response)
  end.

(** Whether a response ends in a result. *)
Definition brings_result (r : Settled Response) : bool :=
  match r with
  | Fulfilled response =>
      ok response && match json response with
                     | Fulfilled _ => true
                     | Rejected _ => false
                     end
  | Rejected _ => false
  end.

(** The events of a response to the call [id]: the fetch settles and,
    when there is a response, so does the reading of its body. *)
Definition arrives (id : nat) (r : Settled Response) : list Event :=
  match r with
  | Fulfilled _ => [FetchSettles id r; BodySettles id]
  | Rejected _ => [FetchSettles id r]
  end.

(** A waiting call of [handleSubmit] waits with what is left of
    [handleSubmit]. *)
Definition known_call (c : option Waiting) : Prop :=
  match c with
  | None => True
  | Some (WaitingFetch k) => k = after_fetch
  | Some (WaitingJson r k) => k = after_body r
  end.

(** The states of [handleSubmit] called at any time. *)
Inductive reachable : World -> Prop :=
| reachable_initial : reachable initial
| reachable_step w ev w' :
    reachable w -> step w ev = Some w' -> reachable w'.

(** The states of the page, whose form submits only while its button is
    enabled.  The constraints of the inputs ([required], [min], [max])
    are left out: they only remove submissions. *)
Inductive page_reachable : World -> Prop :=
| page_initial : page_reachable initial
| page_step w ev w' :
    page_reachable w -> enabled w ev = true -> step w ev = Some w' ->
    page_reachable w'.

(** What the page keeps true: while [loading], one call waits and both
    other cells are empty; otherwise no call waits and at most one of
    the other cells is set. *)
Definition page_invariant (w : World) : Prop :=
  Forall known_call (calls w)
  /\ if loading (ui w)
     then error (ui w) = None /\ data (ui w) = JNull
          /\ waiting (calls w) = 1%nat
     else waiting (calls w) = 0%nat
          /\ (error (ui w) = None \/ data (ui w) = JNull).

End Traces.

(** ** A platform to evaluate on

    A browser in Tokyo (UTC+9, no daylight saving time) whose date parser
    carries a day overflow into the next month, without a backend
    address configured.  The examples below show no number of 10^21 or
    more, which is all [Number_toString_finite] is used for here; they
    type digits into the number inputs and date-times to the second into
    the other two, which is what the validation of the form is given
    for. *)

(** A date-time [YYYY-MM-DDTHH:mm:ss] of the calendar, before 24:00. *)
Definition whole_seconds_of_a_day (value : string) : bool :=
  match read_date_time value with
  | Some f =>
      (String.length value =? 19)%nat
      && (1 <=? field_year f)
      && (1 <=? field_month f) && (field_month f <=? 12)
      && (1 <=? field_day f)
      && (field_day f <=? DaysInMonth (field_year f) (field_month f))
      && (field_hour f <=? 23) && (field_minute f <=? 59)
      && (field_second f <=? 59)
  | None => false
  end.

(** An integer written in digits, between [min] and [max]. *)
Definition integer_in_range (min : Z) (max : option Z) (value : string)
  : bool :=
  match digits_value value with
  | Some n => (min <=? n) && match max with Some m => n <=? m | None => true end
  | None => false
  end.

Definition tokyo : Platform :=
  {| LocalTZA := fun _ => 32400000;
     Date_parse_other := fun _ => None;
     Number_toString_finite := fun _ => "1e+21";
     TypeError_cannot_convert := "Cannot convert object to primitive value";
     Date_day_overflow := true;
     NEXT_PUBLIC_BACKEND_URL := None;
     arguments_limit := 65535;
     Input_number_other := integer_in_range;
     Input_datetime_local := whole_seconds_of_a_day |}.

(** Two submissions, [A] for the station and [B] for the telescope. *)
Definition inputs_A : Inputs :=
  {| noradId := "25544"; startTime := "2026-01-01T06:00:00";
     endTime := "2026-01-01T12:00:00"; stepSeconds := "60" |}.

Definition inputs_B : Inputs :=
  {| noradId := "20580"; startTime := "2026-01-01T06:00:00";
     endTime := "2026-01-01T12:00:00"; stepSeconds := "60" |}.

(** An answer of the backend for six hours of a satellite, cut to two
    points. *)
Definition result_of (norad_id : float) : JsValue :=
  JObject
    [("norad_id", JNumber norad_id);
     ("start", JString "2025-12-31T21:00:00Z");
     ("end", JString "2026-01-01T03:00:00Z");
     ("step_seconds", JNumber 60);
     ("points",
      JArray [JObject [("t", JString "2025-12-31T21:00:00Z");
                       ("alt_km", JNumber 408.125)];
              JObject [("t", JString "2025-12-31T21:01:00Z");
                       ("alt_km", JNumber 409.25)]]);
     ("meta",
      JObject [("tle_source", JString "celestrak");
               ("tle_epoch", JString "2025-12-31T12:00:00Z");
               ("earth_radius_km", JNumber 6371)])].

Definition response_A : Settled Response :=
  Fulfilled {| ok := true; json := Fulfilled (result_of 25544) |}.

Definition response_B : Settled Response :=
  Fulfilled {| ok := true; json := Fulfilled (result_of 20580) |}.

(** The page once [A] is submitted, waiting for the response. *)
Definition awaiting_A : World :=
  {| ui := pending;
     requests := [@altitude_url tokyo "25544" "2025-12-31T21:00:00Z"
                    "2026-01-01T03:00:00Z" "60"];
     calls := [Some (WaitingFetch (@after_fetch tokyo))] |}.

(** Answers of the backend that are not [ok]. *)
Definition refusal (detail : JsValue) : Response :=
  {| ok := false; json := Fulfilled (JObject [("detail", detail)]) |}.

(** A submission with a step of zero. *)
Definition inputs_step_0 : Inputs :=
  {| noradId := "25544"; startTime := "2026-01-01T06:00:00";
     endTime := "2026-01-01T12:00:00"; stepSeconds := "0" |}.

(** A submission with a step of five thousand. *)
Definition inputs_step_5000 : Inputs :=
  {| noradId := "25544"; startTime := "2026-01-01T06:00:00";
     endTime := "2026-01-01T12:00:00"; stepSeconds := "5000" |}.

(** A submission whose end is in a thirteenth month. *)
Definition inputs_invalid : Inputs :=
  {| noradId := "25544"; startTime := "2026-01-01T06:00:00";
     endTime := "2026-13-01T12:00:00"; stepSeconds := "60" |}.

(** ** The results block

    [{data && (<div>...</div>)}], page.tsx:249-349, for a [data] that
    counts as true: whether evaluating it, and React's rendering of the
    children it gives, completes.  [Plot] only receives the two series;
    what it draws of them is not [Home]'s. *)

(** [v.key] for a key that no prototype defines ([norad_id], [points],
    [meta], [tle_epoch], [t], [alt_km]): a TypeError ([None]) on [null]
    and [undefined], the own property of an object, [undefined]
    otherwise. *)
Definition member (v : JsValue) (key : string) : option JsValue :=
  match v with
  | JUndefined | JNull => None
  | JObject properties =>
      Some match own_property key properties with
           | Some x => x
           | None => JUndefined
           end
  | _ => Some JUndefined
  end.

(** What React takes as a child: a string or a number (text), [null],
    [undefined] and booleans (nothing), an array of children.  An object
    of JSON is no element, and rendering it throws. *)
Fixpoint valid_child (v : JsValue) : bool :=
  match v with
  | JObject _ => false
  | JArray items =>
      (fix all (l : list JsValue) : bool :=
         match l with
         | [] => true
         | x :: rest => valid_child x && all rest
         end) items
  | _ => true
  end.

(** ** What [Home] renders of the three cells

    The submit button is [disabled={loading}]; the error panel is
    [{error && (...)}] and the results are [{data && (...)}], so that a
    cell that counts as false renders itself: nothing for [null],
    [false] and the empty string, its digits for a zero.  A [data] that
    counts as true gives the results panel, unless the results block
    throws: React then unmounts [Home], nothing of the page is left, and
    the cells are gone. *)

Inductive ResultsSlot : Type :=
| NoResults
| StrayText (text : string)
| ResultsPanel
| RenderThrows.

Record View : Type := {
  submit_disabled : bool;
  error_panel : option string;
  results : ResultsSlot
}.

Section Render.
Context {P : Platform}.

(** Whether the conversion of a value to a primitive one completes,
    in [Math.min(...)], [Math.max(...)] and [sum + p.alt_km]: it throws
    where [ToString] does. *)
Definition converts (v : JsValue) : bool :=
  match ToString v with
  | inr _ => true
  | inl _ => false
  end.

(** [data.points.length] and [data.meta.tle_epoch] need [data.points]
    and [data.meta]; [data.points.map] needs an array, whose items
    [p.t] and [p.alt_km] are read of; the spreads need the series to fit
    in a call; [data.norad_id] and [data.meta.tle_epoch] are children. *)
Definition results_block_completes (data : JsValue) : bool :=
  match member data "norad_id", member data "points", member data "meta" with
  | Some norad_id, Some (JArray points), Some meta =>
      match member meta "tle_epoch" with
      | Some tle_epoch =>
          forallb (fun p => match member p "alt_km" with
                            | Some alt_km => converts alt_km
                            | None => false
                            end) points
          && (Z.of_nat (List.length points) <=? arguments_limit)
          && valid_child norad_id && valid_child tle_epoch
      | None => false
      end
  | _, _, _ => false
  end.

Definition Home_view (u : UI) : View :=
  {| submit_disabled := loading u;
     error_panel :=
       match error u with
       | Some message => if (message =? "")%string then None else Some message
       | None => None
       end;
     results :=
       if truthy (data u) then
         if results_block_completes (data u) then ResultsPanel
         else RenderThrows
       else match data u with
            | JNumber x => StrayText (if is_nan x then "NaN" else "0")
            | _ => NoResults
            end |}.

(** Whether the render of [Home] completes. *)
Definition Home_renders (u : UI) : bool :=
  match results (Home_view u) with
  | RenderThrows => false
  | _ => true
  end.

(** [Home] stays mounted along a trace: the render of every state the
    trace goes through completes. *)
Fixpoint stays_mounted (w : World) (evs : list Event) : bool :=
  Home_renders (ui w)
  && match evs with
     | [] => true
     | ev :: rest =>
         match step w ev with
         | Some w' => stays_mounted w' rest
         | None => false
         end
     end.

End Render.

(** The orders in which the events of two calls can happen, each call's
    in their own order. *)
Fixpoint interleavings (xs : list Event) : list Event -> list (list Event) :=
  match xs with
  | [] => fun ys => [ys]
  | x :: xs' =>
      fix along (ys : list Event) : list (list Event) :=
        match ys with
        | [] => [x :: xs']
        | y :: ys' =>
            (map (cons x) (interleavings xs' ys)
             ++ map (cons y) (along ys'))%list
        end
  end.

(** The call an event belongs to, and the call of the last event. *)
Definition call_of (ev : Event) : option nat :=
  match ev with
  | Submit _ => None
  | FetchSettles id _ | BodySettles id => Some id
  end.

Definition last_call (evs : list Event) : option nat :=
  match rev evs with
  | ev :: _ => call_of ev
  | [] => None
  end.

(** The events before the first submission. *)
Fixpoint before_submit (evs : list Event) : list Event :=
  match evs with
  | [] => []
  | Submit _ :: _ => []
  | ev :: rest => ev :: before_submit rest
  end.

(** No path through a program ends in an exception nobody caught,
    whatever the awaited promises settle to. *)
Fixpoint all_caught (p : Prog unit) : Prop :=
  match p with
  | Return _ => True
  | Throw _ => False
  | SetLoading _ k | SetError _ k | SetData _ k => all_caught k
  | AwaitFetch _ k => forall r, all_caught (k r)
  | AwaitJson _ k => forall v, all_caught (k v)
  end.

(** An object of JSON without a [toString] of its own. *)
Definition plain_object (v : JsValue) : Prop :=
  exists properties,
    v = JObject properties /\ own_property "toString" properties = None.

(** Answers the examples use: a validation report in the style of
    FastAPI, and a body that is not JSON. *)
Definition validation_report : JsValue :=
  JArray [JObject [("loc", JArray [JString "query"; JString "step_seconds"]);
                   ("msg", JString "ensure this value is greater than 0")]].

Definition not_json : Response :=
  {| ok := true; json := Rejected (ErrorObject "Unexpected token < in JSON") |}.

(** ** Characters of a query string *)

Fixpoint string_forallb (f : ascii -> bool) (s : string) : bool :=
  match s with
  | EmptyString => true
  | String c s' => f c && string_forallb f s'
  end.

Fixpoint count_char (c : ascii) (s : string) : nat :=
  match s with
  | EmptyString => O
  | String c' s' => ((if (c' =? c)%char then 1 else 0) + count_char c s')%nat
  end.

(** What a serialized query is made of: the bytes left as they are,
    [+] for a space, [%] and two digits for any other byte, and the two
    separators. *)
Definition query_char (c : ascii) : bool :=
  urlencoded_safe c
  || (c =? "+")%char || (c =? "%")%char || (c =? "=")%char || (c =? "&")%char.

(** ** The initial values of the two time inputs

    [format(now, "yyyy-MM-dd'T'HH:mm:ss")] and [subHours(now, 6)] of
    date-fns, over the local time of a time value.  [LocalTZA_of_UTC] is
    [LocalTZA(t, true)], the offset of the zone at the UTC time value
    [t]. *)

Section InitialTimes.
Variable LocalTZA_of_UTC : Z -> Z.

Definition LocalTime (t : Z) : Z := t + LocalTZA_of_UTC t.

(** The token [yyyy]: the year, 1 for 1 BC, with zeros up to four
    digits. *)
Definition format_yyyy (signedYear : Z) : string :=
  let year := if 0 <? signedYear then signedYear else 1 - signedYear in
  if year <? 10000 then pad 4 year else decimal year.

Definition format_date_time (tv : Z) : string :=
  let lt := LocalTime tv in
  format_yyyy (YearFromTime lt) ++ "-" ++ pad 2 (MonthFromTime lt + 1)
  ++ "-" ++ pad 2 (DateFromTime lt) ++ "T" ++ pad 2 (HourFromTime lt)
  ++ ":" ++ pad 2 (MinFromTime lt) ++ ":" ++ pad 2 (SecFromTime lt).

(** [subHours(date, amount)]: a new date, invalid ([None]) out of the
    range of time values. *)
Definition subHours (tv amount : Z) : option Z :=
  TimeClip (tv - amount * msPerHour).

(** [setEndTime(...)] and [setStartTime(...)] of the effect; [format]
    throws on an invalid date ([None]). *)
Definition initial_endTime (now : Z) : string := format_date_time now.

Definition initial_startTime (now : Z) : option string :=
  option_map format_date_time (subHours now 6).

End InitialTimes.

(** The zone of [tokyo], seen from UTC. *)
Definition always_9h (_ : Z) : Z := 32400000.

(** A browser in Tokyo that reads a fraction of a second. *)
Definition tokyo_with_fractions : Platform :=
  {| LocalTZA := fun _ => 32400000;
     Date_parse_other :=
       fun s => if (s =? "2026-01-01T12:34:56.500")%string
                then Some 1767238496500 else None;
     Number_toString_finite := fun _ => "1e+21";
     TypeError_cannot_convert := "Cannot convert object to primitive value";
     Date_day_overflow := true;
     NEXT_PUBLIC_BACKEND_URL := None;
     arguments_limit := 65535;
     Input_number_other := integer_in_range;
     Input_datetime_local := whole_seconds_of_a_day |}.

(** ** Reading what the card shows *)

(** [x] is at most [y], on the values of the two numbers. *)
Definition below (x y : float) : Prop := SFleb (Prim2SF x) (Prim2SF y) = true.

(* ================================================================== *)
(** * Part II: properties                                              *)
(* ================================================================== *)

(** ** Strings and digits *)

Ltac zdiv := Z.div_mod_to_equations; lia.

Lemma append_assoc (a b c : string) : (a ++ b) ++ c = a ++ (b ++ c).
Proof. induction a as [|x a IH]; cbn; [reflexivity | now rewrite IH]. Qed.

Lemma append_empty_r (a : string) : a ++ "" = a.
Proof. induction a as [|x a IH]; cbn; [reflexivity | now rewrite IH]. Qed.

Lemma occurs_append c a b : occurs c (a ++ b) = occurs c a || occurs c b.
Proof.
  induction a as [|x a IH]; cbn; [reflexivity|].
  now rewrite IH, orb_assoc.
Qed.

Lemma digit_value_char d : 0 <= d <= 9 -> digit_value (digit_char d) = Some d.
Proof.
  intros H.
  assert (d = 0 \/ d = 1 \/ d = 2 \/ d = 3 \/ d = 4 \/ d = 5 \/ d = 6 \/
          d = 7 \/ d = 8 \/ d = 9) as [E|[E|[E|[E|[E|[E|[E|[E|[E|E]]]]]]]]]
    by lia; subst d; reflexivity.
Qed.

Lemma digit_char_not_dot d : (digit_char d =? ".")%char = false.
Proof.
  destruct d as [|p|p]; try reflexivity.
  do 4 (try destruct p as [p|p|]); reflexivity.
Qed.

Lemma occurs_dot_pad n : forall w, occurs "." (pad n w) = false.
Proof.
  induction n as [|n IH]; intros w; cbn; [reflexivity|].
  rewrite occurs_append, IH. cbn. now rewrite digit_char_not_dot.
Qed.

(** Reading back a zero-padded field, in the middle of a longer read. *)
Lemma read_digits_pad n : forall w acc k s,
  0 <= w < 10 ^ Z.of_nat n ->
  read_digits (n + k) acc (pad n w ++ s)
  = read_digits k (acc * 10 ^ Z.of_nat n + w) s.
Proof.
  induction n as [|n IH]; intros w acc k s Hw.
  - cbn in *. f_equal. lia.
  - rewrite Nat2Z.inj_succ, Z.pow_succ_r in * by lia.
    cbn [pad]. rewrite append_assoc. cbn [append].
    replace (S n + k)%nat with (n + S k)%nat by lia.
    rewrite IH by zdiv.
    cbn [read_digits]. rewrite digit_value_char by zdiv.
    f_equal. zdiv.
Qed.

Lemma read_digits_field n w s :
  0 <= w < 10 ^ Z.of_nat n ->
  read_digits n 0 (pad n w ++ s) = Some (w, s).
Proof.
  intros H. pose proof (read_digits_pad n w 0 0%nat s H) as E.
  rewrite Nat.add_0_r in E. rewrite E. reflexivity.
Qed.

Lemma strip_prefix_self s : strip_prefix s s = Some "".
Proof.
  induction s as [|a s IH]; cbn; [reflexivity|]. now rewrite Ascii.eqb_refl.
Qed.

(** [replace] finds a pattern that starts with a dot at the end of a
    string without any other dot. *)
Lemma replace_after_last_dot p rest rep :
  occurs "." p = false ->
  replace (String "." rest) rep (p ++ String "." rest) = p ++ rep.
Proof.
  induction p as [|c p IH]; intros H.
  - cbn [append replace strip_prefix]. rewrite Ascii.eqb_refl.
    now rewrite strip_prefix_self, append_empty_r.
  - cbn in H. apply orb_false_elim in H as [Hc Hp].
    cbn [append replace strip_prefix].
    rewrite Ascii.eqb_sym, Hc. now rewrite IH.
Qed.

(** ** The calendar *)

Lemma DaysInYear_cases y : DaysInYear y = 365 \/ DaysInYear y = 366.
Proof.
  unfold DaysInYear.
  destruct (y mod 400 =? 0), (y mod 100 =? 0), (y mod 4 =? 0); auto.
Qed.

Lemma DayFromYear_succ y : DayFromYear (y + 1) = DayFromYear y + DaysInYear y.
Proof.
  unfold DayFromYear, DaysInYear.
  replace (y + 1 - 1970) with (y - 1970 + 1) by lia.
  replace (y + 1 - 1969) with (y - 1969 + 1) by lia.
  replace (y + 1 - 1901) with (y - 1901 + 1) by lia.
  replace (y + 1 - 1601) with (y - 1601 + 1) by lia.
  destruct (Z.eqb_spec (y mod 400) 0); [zdiv|].
  destruct (Z.eqb_spec (y mod 100) 0); [zdiv|].
  destruct (Z.eqb_spec (y mod 4) 0); zdiv.
Qed.

(** [YearFromDay d] is the year the day [d] falls in: the largest [y]
    with [DayFromYear y <= d], as ECMA-262 defines [YearFromTime]. *)
Lemma YearFromDay_bracket d :
  DayFromYear (YearFromDay d) <= d < DayFromYear (YearFromDay d + 1).
Proof.
  unfold YearFromDay.
  set (y := 1970 + 400 * d / 146097).
  destruct (Z.ltb_spec d (DayFromYear y)).
  - replace (y - 1 + 1) with y by lia. split; [|lia].
    unfold DayFromYear in *. subst y. zdiv.
  - destruct (Z.leb_spec (DayFromYear (y + 1)) d).
    + split; [lia|]. unfold DayFromYear in *. subst y. zdiv.
    + lia.
Qed.

Lemma DayFromYear_monotone y y' : y <= y' -> DayFromYear y <= DayFromYear y'.
Proof. unfold DayFromYear. intros H. zdiv. Qed.

Lemma YearFromDay_largest d y : DayFromYear y <= d -> y <= YearFromDay d.
Proof.
  intros H. destruct (Z.le_gt_cases y (YearFromDay d)) as [|Hgt]; [assumption|].
  pose proof (YearFromDay_bracket d).
  pose proof (DayFromYear_monotone (YearFromDay d + 1) y ltac:(lia)). lia.
Qed.

Lemma DayWithinYear_range tv :
  0 <= DayWithinYear tv < DaysInYear (YearFromTime tv).
Proof.
  unfold DayWithinYear, YearFromTime.
  pose proof (YearFromDay_bracket (Day tv)) as H.
  rewrite DayFromYear_succ in H. lia.
Qed.

Ltac split_ltb :=
  repeat match goal with
         | |- context [?a <? ?b] => destruct (Z.ltb_spec a b)
         end.

Lemma MonthFromTime_range tv : 0 <= MonthFromTime tv <= 11.
Proof. unfold MonthFromTime. split_ltb; lia. Qed.

Lemma MakeDay_FromTime tv :
  MakeDay (YearFromTime tv) (MonthFromTime tv) (DateFromTime tv) = Day tv.
Proof.
  pose proof (DayWithinYear_range tv) as Hd.
  pose proof (MonthFromTime_range tv) as Hm.
  unfold MakeDay.
  replace (MonthFromTime tv / 12) with 0 by zdiv.
  replace (MonthFromTime tv mod 12) with (MonthFromTime tv) by zdiv.
  rewrite Z.add_0_r.
  unfold DateFromTime, DaysBeforeMonth, InLeapYear.
  unfold MonthFromTime, InLeapYear in *.
  unfold DayWithinYear in *.
  destruct (DaysInYear (YearFromTime tv) =? 366);
    split_ltb; cbn [Z.eqb]; lia.
Qed.

Lemma DateFromTime_range tv :
  1 <= DateFromTime tv
    <= DaysInMonth (YearFromTime tv) (MonthFromTime tv + 1).
Proof.
  pose proof (DayWithinYear_range tv) as Hd.
  unfold DateFromTime, DaysInMonth, MonthFromTime, InLeapYear in *.
  destruct (DaysInYear_cases (YearFromTime tv)) as [E|E]; rewrite E in *;
    cbn [Z.eqb Pos.eqb] in *;
    split_ltb; cbn; lia.
Qed.

Lemma DaysInMonth_le_31 y m : DaysInMonth y m <= 31.
Proof.
  unfold DaysInMonth.
  destruct m as [|p|p]; try lia.
  destruct (DaysInYear y =? 366);
    repeat (destruct p as [p|p|]; try lia).
Qed.

Lemma MakeTime_FromTime tv :
  MakeTime (HourFromTime tv) (MinFromTime tv) (SecFromTime tv) (msFromTime tv)
  = TimeWithinDay tv.
Proof.
  unfold MakeTime, HourFromTime, MinFromTime, SecFromTime, msFromTime,
    TimeWithinDay, msPerHour, msPerMinute, msPerSecond, msPerDay.
  zdiv.
Qed.

Lemma MakeDate_Day tv : MakeDate (Day tv) (TimeWithinDay tv) = tv.
Proof. unfold MakeDate, Day, TimeWithinDay, msPerDay. zdiv. Qed.

Lemma time_fields_range tv :
  0 <= HourFromTime tv <= 23 /\ 0 <= MinFromTime tv <= 59 /\
  0 <= SecFromTime tv <= 59 /\ 0 <= msFromTime tv <= 999.
Proof.
  unfold HourFromTime, MinFromTime, SecFromTime, msFromTime, msPerSecond.
  repeat split; zdiv.
Qed.

Lemma YearFromTime_range tv :
  Z.abs tv <= 8640000000000000 -> -271821 <= YearFromTime tv <= 275760.
Proof.
  intros Ht. unfold YearFromTime.
  pose proof (YearFromDay_bracket (Day tv)) as H.
  rewrite DayFromYear_succ in H.
  pose proof (DaysInYear_cases (YearFromDay (Day tv))).
  assert (-100000000 <= Day tv <= 100000000) by (unfold Day, msPerDay; zdiv).
  unfold DayFromYear in H. zdiv.
Qed.

Lemma TimeClip_Some time tv :
  TimeClip time = Some tv -> tv = time /\ Z.abs tv <= 8640000000000000.
Proof.
  unfold TimeClip. destruct (Z.ltb_spec 8640000000000000 (Z.abs time));
    [discriminate|]. intros [= <-]. lia.
Qed.

(** ** Writing and reading a date-time *)

Lemma occurs_dot_year y : occurs "." (year_string y) = false.
Proof.
  unfold year_string.
  destruct ((0 <=? y) && (y <=? 9999)); [apply occurs_dot_pad|].
  rewrite occurs_append, occurs_dot_pad. now destruct (0 <=? y).
Qed.

Lemma occurs_dot_date_time tv : occurs "." (date_time_string tv) = false.
Proof.
  unfold date_time_string.
  repeat rewrite occurs_append.
  repeat rewrite occurs_dot_pad. rewrite occurs_dot_year. reflexivity.
Qed.

Lemma read_year_digit d s :
  read_year (String (digit_char d) s)
  = read_digits 4 0 (String (digit_char d) s).
Proof.
  destruct d as [|p|p]; try reflexivity.
  do 4 (try destruct p as [p|p|]); reflexivity.
Qed.

Lemma pad_first n : forall w s,
  exists d s', pad (S n) w ++ s = String (digit_char d) s'.
Proof.
  induction n as [|n IH]; intros w s.
  - exists (w mod 10), s. reflexivity.
  - change (pad (S (S n)) w)
      with (pad (S n) (w / 10) ++ String (digit_char (w mod 10)) "").
    rewrite append_assoc.
    destruct (IH (w / 10) (String (digit_char (w mod 10)) "" ++ s))
      as (d & s' & E).
    exists d, s'. exact E.
Qed.

Lemma read_year_plain y s :
  0 <= y <= 9999 -> read_year (pad 4 y ++ s) = Some (y, s).
Proof.
  intros Hy. destruct (pad_first 3 y s) as (d & s' & E).
  rewrite E, read_year_digit, <- E.
  apply read_digits_field. cbn. lia.
Qed.

Lemma read_year_string y s :
  -999999 <= y <= 999999 ->
  read_year (year_string y ++ s) = Some (y, s).
Proof.
  intros Hy. unfold year_string.
  destruct (Z.leb_spec 0 y) as [H0|H0]; cbn [andb].
  - destruct (Z.leb_spec y 9999) as [H1|H1].
    + apply read_year_plain. lia.
    + cbn [append read_year].
      rewrite Z.abs_eq by lia. apply read_digits_field. cbn. lia.
  - cbn [append read_year].
    rewrite read_digits_field by (cbn; lia).
    destruct (Z.eqb_spec (Z.abs y) 0); [lia|].
    f_equal. f_equal. lia.
Qed.

Ltac read_field :=
  first
    [ rewrite read_year_string by lia
    | rewrite read_year_plain by lia
    | rewrite read_digits_field by (cbn; lia) ];
  cbn [append read_char Ascii.eqb Bool.eqb].

Lemma read_date_time_utc tv :
  Z.abs tv <= 8640000000000000 ->
  read_date_time (date_time_string tv ++ "Z")
  = Some {| field_year := YearFromTime tv;
            field_month := MonthFromTime tv + 1;
            field_day := DateFromTime tv;
            field_hour := HourFromTime tv;
            field_minute := MinFromTime tv;
            field_second := SecFromTime tv;
            field_utc := true |}.
Proof.
  intros Htv.
  pose proof (YearFromTime_range tv Htv).
  pose proof (MonthFromTime_range tv).
  pose proof (DateFromTime_range tv).
  pose proof (DaysInMonth_le_31 (YearFromTime tv) (MonthFromTime tv + 1)).
  pose proof (time_fields_range tv) as (? & ? & ? & ?).
  unfold date_time_string, read_date_time.
  repeat rewrite append_assoc.
  repeat read_field. reflexivity.
Qed.

Lemma read_date_time_local y mo d h mi sec :
  0 <= y <= 9999 -> 0 <= mo <= 99 -> 0 <= d <= 99 ->
  0 <= h <= 99 -> 0 <= mi <= 99 -> 0 <= sec <= 99 ->
  read_date_time (local_date_time y mo d h mi sec)
  = Some {| field_year := y; field_month := mo; field_day := d;
            field_hour := h; field_minute := mi; field_second := sec;
            field_utc := false |}.
Proof.
  intros. unfold local_date_time, read_date_time.
  rewrite <- (append_empty_r (pad 2 sec)).
  repeat read_field. reflexivity.
Qed.

(** ** [toUTCISOString] *)

Section Normalizer.
Context {P : Platform}.

Lemma fields_of_time_in_bounds tv :
  fields_in_bounds
    {| field_year := YearFromTime tv; field_month := MonthFromTime tv + 1;
       field_day := DateFromTime tv; field_hour := HourFromTime tv;
       field_minute := MinFromTime tv; field_second := SecFromTime tv;
       field_utc := true |} = true.
Proof.
  pose proof (MonthFromTime_range tv).
  pose proof (DateFromTime_range tv).
  pose proof (DaysInMonth_le_31 (YearFromTime tv) (MonthFromTime tv + 1)).
  pose proof (time_fields_range tv) as (? & ? & ? & ?).
  unfold fields_in_bounds.
  cbn [field_year field_month field_day field_hour field_minute field_second].
  repeat (apply andb_true_iff; split); try (apply Z.leb_le; lia).
  - destruct Date_day_overflow; apply Z.leb_le; lia.
  - destruct (Z.eqb_spec (HourFromTime tv) 24); [lia | reflexivity].
Qed.

(** A time value of whole seconds is read back from its UTC string. *)
Lemma Date_parse_date_time_string tv :
  Z.abs tv <= 8640000000000000 -> msFromTime tv = 0 ->
  Date_parse (date_time_string tv ++ "Z") = Some tv.
Proof.
  intros Hclip Hms. unfold Date_parse.
  rewrite read_date_time_utc by assumption.
  unfold time_value_of_fields. rewrite fields_of_time_in_bounds.
  cbn [field_year field_month field_day field_hour field_minute field_second
       field_utc].
  replace (MonthFromTime tv + 1 - 1) with (MonthFromTime tv) by lia.
  rewrite MakeDay_FromTime, <- Hms, MakeTime_FromTime, MakeDate_Day.
  unfold TimeClip.
  destruct (Z.ltb_spec 8640000000000000 (Z.abs tv)); [lia | reflexivity].
Qed.

(** With a zone offset of whole seconds, a local date-time without
    fraction is an instant of whole seconds. *)
Lemma Date_parse_local_whole_seconds y mo d h mi sec tv :
  (forall t, LocalTZA t mod 1000 = 0) ->
  0 <= y <= 9999 -> 0 <= mo <= 99 -> 0 <= d <= 99 ->
  0 <= h <= 99 -> 0 <= mi <= 99 -> 0 <= sec <= 99 ->
  Date_parse (local_date_time y mo d h mi sec) = Some tv ->
  msFromTime tv = 0 /\ Z.abs tv <= 8640000000000000.
Proof.
  intros Hzone Hy Hmo Hd Hh Hmi Hsec. unfold Date_parse.
  rewrite read_date_time_local by assumption.
  unfold time_value_of_fields.
  destruct (fields_in_bounds _); [|discriminate].
  cbn [field_year field_month field_day field_hour field_minute field_second
       field_utc].
  intros Hclip. apply TimeClip_Some in Hclip as [-> Habs].
  split; [|exact Habs].
  unfold msFromTime, UTC, MakeDate, MakeTime,
    msPerDay, msPerHour, msPerMinute, msPerSecond.
  match goal with |- context [LocalTZA ?t] => pose proof (Hzone t) end.
  zdiv.
Qed.

Lemma toISOString_whole_seconds tv :
  msFromTime tv = 0 ->
  replace ".000Z" "Z" (toISOString tv) = date_time_string tv ++ "Z".
Proof.
  intros Hms. unfold toISOString. rewrite Hms.
  change ("." ++ pad 3 0 ++ "Z") with ".000Z".
  apply replace_after_last_dot, occurs_dot_date_time.
Qed.

(** C5. For every input of the shape [YYYY-MM-DDTHH:mm:ss] that [Date]
    takes as a local date and time, in a zone whose offsets are whole
    seconds, [toUTCISOString] returns the date, [T], the time to the
    second and [Z], all in UTC, without a fraction of a second; and
    [Date] reads that string back as the instant the input denoted. *)
Theorem toUTCISOString_round_trip y mo d h mi sec tv :
  (forall t, LocalTZA t mod 1000 = 0) ->
  0 <= y <= 9999 -> 0 <= mo <= 99 -> 0 <= d <= 99 ->
  0 <= h <= 99 -> 0 <= mi <= 99 -> 0 <= sec <= 99 ->
  Date_parse (local_date_time y mo d h mi sec) = Some tv ->
  exists utc,
    toUTCISOString (local_date_time y mo d h mi sec) = inr utc
    /\ utc = date_time_string tv ++ "Z"
    /\ occurs "." utc = false
    /\ Date_parse utc = Some tv.
Proof.
  intros Hzone Hy Hmo Hd Hh Hmi Hsec Hparse.
  destruct (Date_parse_local_whole_seconds y mo d h mi sec tv)
    as [Hms Hclip]; try assumption.
  exists (date_time_string tv ++ "Z").
  unfold toUTCISOString. rewrite Hparse, toISOString_whole_seconds by exact Hms.
  repeat split.
  - rewrite occurs_append, occurs_dot_date_time. reflexivity.
  - apply Date_parse_date_time_string; assumption.
Qed.

End Normalizer.

(** The example of the source: 12:34:56 in Japan is 03:34:56Z. *)
Example toUTCISOString_in_Tokyo :
  @toUTCISOString tokyo "2026-01-01T12:34:56" = inr "2026-01-01T03:34:56Z".
Proof. reflexivity. Qed.

(** Where the parser carries a day the month does not have into the
    next month, the thirtieth of February is a valid input. *)
Example toUTCISOString_day_overflow :
  @toUTCISOString tokyo "2026-02-30T12:00:00" = inr "2026-03-02T03:00:00Z".
Proof. reflexivity. Qed.

Lemma toUTCISOString_round_trip_witness :
  @Date_parse tokyo (local_date_time 2026 1 1 12 34 56) = Some 1767238496000
  /\ exists utc,
       @toUTCISOString tokyo "2026-01-01T12:34:56" = inr utc
       /\ utc = "2026-01-01T03:34:56Z"
       /\ occurs "." utc = false
       /\ @Date_parse tokyo utc = Some 1767238496000.
Proof.
  split; [reflexivity|].
  apply (@toUTCISOString_round_trip tokyo 2026 1 1 12 34 56 1767238496000);
    [intros; reflexivity | lia | lia | lia | lia | lia | lia | reflexivity].
Defined.

(** ** Running [handleSubmit] *)

Section Running.
Context {P : Platform}.

Lemma toUTCISOString_invalid s :
  Date_parse s = None ->
  toUTCISOString s = inl (ErrorObject "Invalid date/time format").
Proof. unfold toUTCISOString. now intros ->. Qed.

Lemma toUTCISOString_result s :
  (exists utc, toUTCISOString s = inr utc)
  \/ toUTCISOString s = inl (ErrorObject "Invalid date/time format").
Proof. unfold toUTCISOString. destruct (Date_parse s); eauto. Qed.

Lemma toUTCISOString_valid s utc :
  toUTCISOString s = inr utc -> Date_parse s <> None.
Proof. unfold toUTCISOString. destruct (Date_parse s); congruence. Qed.

(** A timestamp that does not parse: the call returns at once. *)
Lemma run_handleSubmit_invalid i u :
  Date_parse (startTime i) = None \/ Date_parse (endTime i) = None ->
  run (handleSubmit i) u
  = ({| loading := false; error := Some "Invalid date/time format";
        data := JNull |}, Finished).
Proof.
  intros H. unfold handleSubmit.
  destruct (toUTCISOString_result (startTime i)) as [[s Es]|Es];
    rewrite Es; [|reflexivity].
  destruct H as [H|H].
  - apply toUTCISOString_valid in Es. contradiction.
  - rewrite (toUTCISOString_invalid _ H). reflexivity.
Qed.

(** Both timestamps parse: the call stops at the fetch. *)
Lemma run_handleSubmit_valid i u s e :
  toUTCISOString (startTime i) = inr s ->
  toUTCISOString (endTime i) = inr e ->
  run (handleSubmit i) u
  = (pending, AtFetch (altitude_url (noradId i) s e (stepSeconds i)) after_fetch).
Proof. intros Es Ee. unfold handleSubmit. rewrite Es, Ee. reflexivity. Qed.

Lemma run_after_fetch_rejected e u :
  run (after_fetch (Rejected e)) u = (failed u (error_message e), Finished).
Proof. reflexivity. Qed.

Lemma run_after_fetch_fulfilled r u :
  run (after_fetch (Fulfilled r)) u = (u, AtJson r (after_body r)).
Proof.
  unfold after_fetch, after_body. cbn [awaited bind].
  destruct (ok r); reflexivity.
Qed.

Lemma run_after_body r u :
  run (after_body r (json r)) u = (settle (Fulfilled r) u, Finished).
Proof.
  unfold after_body, settle, request_failed_message.
  destruct (ok r).
  - destruct (json r); reflexivity.
  - unfold after_errorData. destruct (json r) as [errorData|e]; cbn.
    + unfold throw_new_Error. destruct (ToString _); reflexivity.
    + reflexivity.
Qed.

End Running.

(** ** The table of calls *)

Lemma set_call_length id c : forall l,
  List.length (set_call id c l) = List.length l.
Proof.
  induction id as [|id IH]; intros [|x l]; cbn; try reflexivity.
  now rewrite IH.
Qed.

Lemma nth_error_set_call_eq id c : forall l,
  (id < List.length l)%nat -> nth_error (set_call id c l) id = Some c.
Proof.
  induction id as [|id IH]; intros [|x l] H; cbn in *; try lia;
    [reflexivity | apply IH; lia].
Qed.

Lemma nth_error_set_call_ne id j c : forall l,
  id <> j -> nth_error (set_call id c l) j = nth_error l j.
Proof.
  revert j. induction id as [|id IH]; intros [|j] [|x l] H; cbn;
    try reflexivity; try congruence.
  apply IH. congruence.
Qed.

Lemma set_call_app_at (l l' : list (option Waiting)) k c :
  set_call (List.length l + k) c (l ++ l')%list = (l ++ set_call k c l')%list.
Proof.
  induction l as [|x l IH]; cbn; [reflexivity | now rewrite IH].
Qed.

Lemma set_call_new (l : list (option Waiting)) x c :
  set_call (List.length l) c (l ++ [x])%list = (l ++ [c])%list.
Proof.
  pose proof (set_call_app_at l [x] 0 c) as E.
  now rewrite Nat.add_0_r in E.
Qed.

Lemma set_call_twice id c c' : forall l,
  set_call id c (set_call id c' l) = set_call id c l.
Proof.
  induction id as [|id IH]; intros [|x l]; cbn; try reflexivity.
  now rewrite IH.
Qed.

Lemma Forall_set_call (Q : option Waiting -> Prop) id c : forall l,
  Forall Q l -> Q c -> Forall Q (set_call id c l).
Proof.
  induction id as [|id IH]; intros [|x l] Hl Hc; cbn; try assumption;
    inversion Hl; subst; constructor; auto.
Qed.

Lemma waiting_app l l' : waiting (l ++ l')%list = (waiting l + waiting l')%nat.
Proof. unfold waiting. now rewrite filter_app, length_app. Qed.

Lemma waiting_set_call id c : forall l old,
  nth_error l id = Some old ->
  (waiting (set_call id c l) + is_waiting old
   = waiting l + is_waiting c)%nat.
Proof.
  unfold waiting.
  induction id as [|id IH]; intros [|x l] old H; cbn in H; try discriminate.
  - injection H as ->. cbn. destruct old, c; cbn; lia.
  - cbn. specialize (IH l old H). destruct x; cbn; lia.
Qed.

Lemma nth_error_last_two {A} (l : list A) x y :
  nth_error ((l ++ [x]) ++ [y])%list (List.length l) = Some x
  /\ nth_error ((l ++ [x]) ++ [y])%list (S (List.length l)) = Some y.
Proof. induction l as [|z l IH]; cbn; auto. Qed.

(** ** Events *)

Section Stepping.
Context {P : Platform}.

Lemma steps_app evs evs' : forall w,
  steps w (evs ++ evs')%list
  = match steps w evs with
    | Some w' => steps w' evs'
    | None => None
    end.
Proof.
  induction evs as [|ev evs IH]; intros w; cbn; [reflexivity|].
  destruct (step w ev); [apply IH | reflexivity].
Qed.

Lemma step_Submit_invalid w i :
  Date_parse (startTime i) = None \/ Date_parse (endTime i) = None ->
  step w (Submit i)
  = Some {| ui := {| loading := false;
                     error := Some "Invalid date/time format";
                     data := JNull |};
            requests := requests w;
            calls := (calls w ++ [None])%list |}.
Proof.
  intros H. cbn [step]. unfold advance.
  rewrite (run_handleSubmit_invalid i _ H). cbn [ui requests calls].
  now rewrite set_call_new.
Qed.

Lemma step_Submit_valid w i s e :
  toUTCISOString (startTime i) = inr s ->
  toUTCISOString (endTime i) = inr e ->
  step w (Submit i)
  = Some {| ui := pending;
            requests :=
              (requests w
               ++ [altitude_url (noradId i) s e (stepSeconds i)])%list;
            calls := (calls w ++ [Some (WaitingFetch after_fetch)])%list |}.
Proof.
  intros Es Ee. cbn [step]. unfold advance.
  rewrite (run_handleSubmit_valid i _ s e Es Ee). cbn [ui requests calls].
  now rewrite set_call_new.
Qed.

Lemma step_FetchSettles_rejected w id e :
  nth_error (calls w) id = Some (Some (WaitingFetch after_fetch)) ->
  step w (FetchSettles id (Rejected e))
  = Some {| ui := failed (ui w) (error_message e);
            requests := requests w;
            calls := set_call id None (calls w) |}.
Proof. intros H. cbn [step]. rewrite H. reflexivity. Qed.

Lemma step_FetchSettles_fulfilled w id r :
  nth_error (calls w) id = Some (Some (WaitingFetch after_fetch)) ->
  step w (FetchSettles id (Fulfilled r))
  = Some {| ui := ui w;
            requests := requests w;
            calls := set_call id (Some (WaitingJson r (after_body r)))
                       (calls w) |}.
Proof.
  intros H. cbn [step]. rewrite H. unfold advance.
  now rewrite run_after_fetch_fulfilled.
Qed.

Lemma step_BodySettles w id r :
  nth_error (calls w) id = Some (Some (WaitingJson r (after_body r))) ->
  step w (BodySettles id)
  = Some {| ui := settle (Fulfilled r) (ui w);
            requests := requests w;
            calls := set_call id None (calls w) |}.
Proof.
  intros H. cbn [step]. rewrite H. unfold advance.
  now rewrite run_after_body.
Qed.

(** A response arrives for a call that waits for it: the cells take
    what [settle] says, whichever call it is. *)
Lemma steps_arrives w id r :
  nth_error (calls w) id = Some (Some (WaitingFetch after_fetch)) ->
  steps w (arrives id r)
  = Some {| ui := settle r (ui w);
            requests := requests w;
            calls := set_call id None (calls w) |}.
Proof.
  intros H. destruct r as [r|e]; cbn [arrives steps].
  - rewrite (step_FetchSettles_fulfilled w id r H).
    rewrite (step_BodySettles _ id r).
    + cbn [ui requests calls]. now rewrite set_call_twice.
    + cbn [calls]. apply nth_error_set_call_eq.
      apply nth_error_Some. congruence.
  - now rewrite (step_FetchSettles_rejected w id e H).
Qed.

Lemma Date_parse_invalid_cases i :
  (exists s e, toUTCISOString (startTime i) = inr s
               /\ toUTCISOString (endTime i) = inr e)
  \/ Date_parse (startTime i) = None \/ Date_parse (endTime i) = None.
Proof.
  unfold toUTCISOString.
  destruct (Date_parse (startTime i)), (Date_parse (endTime i)); eauto.
Qed.

(** The five ways a state changes, when its waiting calls are calls of
    [handleSubmit]. *)
Lemma step_cases w ev w' :
  Forall known_call (calls w) -> step w ev = Some w' ->
  (exists i,
     ev = Submit i
     /\ (Date_parse (startTime i) = None \/ Date_parse (endTime i) = None)
     /\ w' = {| ui := {| loading := false;
                         error := Some "Invalid date/time format";
                         data := JNull |};
                requests := requests w;
                calls := (calls w ++ [None])%list |})
  \/ (exists i s e,
        ev = Submit i
        /\ toUTCISOString (startTime i) = inr s
        /\ toUTCISOString (endTime i) = inr e
        /\ w' = {| ui := pending;
                   requests :=
                     (requests w
                      ++ [altitude_url (noradId i) s e (stepSeconds i)])%list;
                   calls :=
                     (calls w ++ [Some (WaitingFetch after_fetch)])%list |})
  \/ (exists id e,
        ev = FetchSettles id (Rejected e)
        /\ nth_error (calls w) id = Some (Some (WaitingFetch after_fetch))
        /\ w' = {| ui := failed (ui w) (error_message e);
                   requests := requests w;
                   calls := set_call id None (calls w) |})
  \/ (exists id r,
        ev = FetchSettles id (Fulfilled r)
        /\ nth_error (calls w) id = Some (Some (WaitingFetch after_fetch))
        /\ w' = {| ui := ui w;
                   requests := requests w;
                   calls := set_call id (Some (WaitingJson r (after_body r)))
                              (calls w) |})
  \/ (exists id r,
        ev = BodySettles id
        /\ nth_error (calls w) id = Some (Some (WaitingJson r (after_body r)))
        /\ w' = {| ui := settle (Fulfilled r) (ui w);
                   requests := requests w;
                   calls := set_call id None (calls w) |}).
Proof.
  intros Hk Hstep. destruct ev as [i|id r|id].
  - destruct (Date_parse_invalid_cases i) as [(s & e & Es & Ee)|H].
    + rewrite (step_Submit_valid w i s e Es Ee) in Hstep.
      injection Hstep as <-. right; left. now exists i, s, e.
    + rewrite (step_Submit_invalid w i H) in Hstep.
      injection Hstep as <-. left. now exists i.
  - assert (E : nth_error (calls w) id = Some (Some (WaitingFetch after_fetch))).
    { cbn [step] in Hstep.
      destruct (nth_error (calls w) id) as [[[k|r' k]|]|] eqn:E;
        try discriminate.
      assert (Hkn : known_call (Some (WaitingFetch k))).
      { eapply Forall_forall; [exact Hk|]. eapply nth_error_In; exact E. }
      cbn in Hkn. now subst k. }
    destruct r as [r|e].
    + rewrite (step_FetchSettles_fulfilled w id r E) in Hstep.
      injection Hstep as <-. do 3 right; left. now exists id, r.
    + rewrite (step_FetchSettles_rejected w id e E) in Hstep.
      injection Hstep as <-. do 2 right; left. now exists id, e.
  - assert (E : exists r, nth_error (calls w) id
                          = Some (Some (WaitingJson r (after_body r)))).
    { cbn [step] in Hstep.
      destruct (nth_error (calls w) id) as [[[k|r' k]|]|] eqn:E;
        try discriminate.
      assert (Hkn : known_call (Some (WaitingJson r' k))).
      { eapply Forall_forall; [exact Hk|]. eapply nth_error_In; exact E. }
      cbn in Hkn. subst k. now exists r'. }
    destruct E as [r E].
    rewrite (step_BodySettles w id r E) in Hstep.
    injection Hstep as <-. do 4 right. now exists id, r.
Qed.

(** Every waiting call of a reachable state is a call of
    [handleSubmit]. *)
Lemma step_known w ev w' :
  Forall known_call (calls w) -> step w ev = Some w' ->
  Forall known_call (calls w').
Proof.
  intros Hk Hstep.
  destruct (step_cases w ev w' Hk Hstep)
    as [(i & _ & _ & ->)|[(i & s & e & _ & _ & _ & ->)|[(id & e & _ & _ & ->)
       |[(id & r & _ & _ & ->)|(id & r & _ & _ & ->)]]]]; cbn [calls].
  - apply Forall_app. split; [assumption|]. now repeat constructor.
  - apply Forall_app. split; [assumption|]. now repeat constructor.
  - apply Forall_set_call; [assumption | exact I].
  - apply Forall_set_call; [assumption | reflexivity].
  - apply Forall_set_call; [assumption | exact I].
Qed.

Lemma reachable_known w : reachable w -> Forall known_call (calls w).
Proof.
  induction 1 as [|w ev w' _ IH Hstep]; [constructor|].
  exact (step_known w ev w' IH Hstep).
Qed.

Lemma page_reachable_reachable w : page_reachable w -> reachable w.
Proof.
  induction 1 as [|w ev w' _ IH _ Hstep]; [constructor|].
  exact (reachable_step w ev w' IH Hstep).
Qed.

End Stepping.

(** ** The properties of the request lifecycle *)

Section Lifecycle.
Context {P : Platform}.

(** C4. A submission whose start or end [Date] does not parse goes
    straight to the failed state with the validation message: no request
    is sent, and the call has returned without waiting for anything. *)
Theorem invalid_timestamp_sends_nothing w i :
  Date_parse (startTime i) = None \/ Date_parse (endTime i) = None ->
  exists w',
    step w (Submit i) = Some w'
    /\ lifecycle (ui w') = Some (Failed "Invalid date/time format")
    /\ requests w' = requests w
    /\ calls w' = (calls w ++ [None])%list
    /\ run (handleSubmit i) (ui w) = (ui w', Finished).
Proof.
  intros H. eexists. split; [apply (step_Submit_invalid w i H)|].
  cbn [ui requests calls]. repeat split.
  now rewrite (run_handleSubmit_invalid i _ H).
Qed.

Lemma settle_loading r u : loading (settle r u) = false.
Proof.
  destruct r as [r|e]; cbn; [|reflexivity].
  destruct (ok r); [destruct (json r)|]; reflexivity.
Qed.

Lemma nth_error_waiting l id c :
  nth_error l id = Some (Some c) -> (1 <= waiting l)%nat.
Proof.
  revert l. unfold waiting.
  induction id as [|id IH]; intros [|x l] H; cbn in H; try discriminate.
  - injection H as ->. cbn. lia.
  - specialize (IH l H). cbn. destruct x; cbn; lia.
Qed.

(** C10. Whatever way a call of [handleSubmit] returns, [loading] is
    false when it has returned: for every event of a reachable state
    after which a call that was waiting has returned; a response of any
    kind makes the call it is for return; and a submission has emptied
    the result and the error when its request is sent. *)
Theorem loading_reset_when_resolved w :
  reachable w ->
  (forall ev w' id c,
     step w ev = Some w' ->
     nth_error (calls w) id = Some (Some c) ->
     nth_error (calls w') id = Some None ->
     loading (ui w') = false)
  /\ (forall id k r,
        nth_error (calls w) id = Some (Some (WaitingFetch k)) ->
        exists w',
          steps w (arrives id r) = Some w'
          /\ nth_error (calls w') id = Some None
          /\ loading (ui w') = false)
  /\ (forall id r k,
        nth_error (calls w) id = Some (Some (WaitingJson r k)) ->
        exists w',
          step w (BodySettles id) = Some w'
          /\ nth_error (calls w') id = Some None
          /\ loading (ui w') = false)
  /\ (forall i w',
        step w (Submit i) = Some w' ->
        (requests w' = requests w
         /\ nth_error (calls w') (List.length (calls w)) = Some None
         /\ loading (ui w') = false /\ data (ui w') = JNull)
        \/ (exists url,
              requests w' = (requests w ++ [url])%list
              /\ run (handleSubmit i) (ui w) = (pending, AtFetch url after_fetch)
              /\ ui w' = pending)).
Proof.
  intros Hreach. pose proof (reachable_known w Hreach) as Hk.
  repeat split.
  - intros ev w' id c Hstep Hbefore Hafter.
    destruct (step_cases w ev w' Hk Hstep)
      as [(i & _ & _ & ->)|[(i & s & e & _ & _ & _ & ->)|[(id' & e & _ & _ & ->)
         |[(id' & r & _ & E & ->)|(id' & r & _ & _ & ->)]]]];
      cbn [calls ui] in *; try reflexivity.
    + rewrite nth_error_app1 in Hafter by (apply nth_error_Some; congruence).
      congruence.
    + destruct (Nat.eq_dec id' id) as [->|Hne].
      * rewrite nth_error_set_call_eq in Hafter
          by (apply nth_error_Some; congruence).
        discriminate.
      * rewrite nth_error_set_call_ne in Hafter by assumption. congruence.
    + apply settle_loading.
  - intros id k r Hcall.
    assert (k = after_fetch) as ->.
    { assert (Hkn : known_call (Some (WaitingFetch k))).
      { eapply Forall_forall; [exact Hk|]. eapply nth_error_In; exact Hcall. }
      exact Hkn. }
    eexists. split; [apply (steps_arrives w id r Hcall)|].
    cbn [calls ui]. split; [|apply settle_loading].
    apply nth_error_set_call_eq. apply nth_error_Some. congruence.
  - intros id r k Hcall.
    assert (k = after_body r) as ->.
    { assert (Hkn : known_call (Some (WaitingJson r k))).
      { eapply Forall_forall; [exact Hk|]. eapply nth_error_In; exact Hcall. }
      exact Hkn. }
    eexists. split; [apply (step_BodySettles w id r Hcall)|].
    cbn [calls ui]. split; [|apply settle_loading].
    apply nth_error_set_call_eq. apply nth_error_Some. congruence.
  - intros i w' Hstep.
    destruct (Date_parse_invalid_cases i) as [(s & e & Es & Ee)|H].
    + right. rewrite (step_Submit_valid w i s e Es Ee) in Hstep.
      injection Hstep as <-. eexists. cbn [requests ui].
      repeat split. apply (run_handleSubmit_valid i _ s e Es Ee).
    + left. rewrite (step_Submit_invalid w i H) in Hstep.
      injection Hstep as <-. cbn [requests ui calls loading data].
      repeat split.
      rewrite nth_error_app2 by lia. now rewrite Nat.sub_diag.
Qed.

Lemma page_invariant_step w ev w' :
  page_invariant w -> enabled w ev = true -> step w ev = Some w' ->
  page_invariant w'.
Proof.
  intros [Hk Hinv] Hen Hstep. split; [exact (step_known w ev w' Hk Hstep)|].
  destruct (step_cases w ev w' Hk Hstep)
    as [(i & -> & _ & ->)|[(i & s & e & -> & _ & _ & ->)|[(id & e & _ & E & ->)
       |[(id & r & _ & E & ->)|(id & r & _ & E & ->)]]]];
    cbn [calls ui loading error data pending].
  - cbn in Hen. destruct (loading (ui w)); [discriminate|].
    rewrite waiting_app. cbn. split; [lia | now right].
  - cbn in Hen. destruct (loading (ui w)); [discriminate|].
    rewrite waiting_app. cbn. repeat split. lia.
  - pose proof (nth_error_waiting _ _ _ E).
    pose proof (waiting_set_call id None _ _ E) as Hw. cbn in Hw.
    destruct (loading (ui w)); [|lia].
    destruct Hinv as (_ & Hd & Hone). cbn. split; [lia | now right].
  - pose proof (waiting_set_call id (Some (WaitingJson r (after_body r))) _ _ E)
      as Hw. cbn in Hw.
    destruct (loading (ui w)).
    + destruct Hinv as (He & Hd & Hone). repeat split; try assumption. lia.
    + destruct Hinv as (Hzero & Hor). split; [lia | assumption].
  - pose proof (nth_error_waiting _ _ _ E).
    pose proof (waiting_set_call id None _ _ E) as Hw. cbn in Hw.
    rewrite settle_loading.
    destruct (loading (ui w)); [|lia].
    destruct Hinv as (He & Hd & Hone). split; [lia|].
    cbn. destruct (ok r); [destruct (json r)|]; cbn; auto.
Qed.

Lemma page_reachable_invariant w : page_reachable w -> page_invariant w.
Proof.
  induction 1 as [|w ev w' _ IH Hen Hstep].
  - split; [constructor | cbn; auto].
  - exact (page_invariant_step w ev w' IH Hen Hstep).
Qed.

Lemma reachable_loading_cells w :
  reachable w -> loading (ui w) = true ->
  error (ui w) = None /\ data (ui w) = JNull.
Proof.
  induction 1 as [|w ev w' Hreach IH Hstep]; [discriminate|].
  pose proof (reachable_known w Hreach) as Hk.
  destruct (step_cases w ev w' Hk Hstep)
    as [(i & _ & _ & ->)|[(i & s & e & _ & _ & _ & ->)|[(id & e & _ & _ & ->)
       |[(id & r & _ & _ & ->)|(id & r & _ & _ & ->)]]]];
    cbn [ui]; try discriminate; auto.
  rewrite settle_loading. discriminate.
Qed.

(** C3, as the page has it. As long as [handleSubmit] is called only
    while [loading] is false, which is what the disabled submit button
    of the form does, the three cells are in every state exactly one of
    idle, pending, succeeded and failed: an error and a result are never
    both set, and as long as a call waits for its response the state is
    pending, without a result.  However [handleSubmit] is called, the
    cells are pending, without an error or a result, whenever [loading]
    is true. *)
Theorem lifecycle_is_one_variant w :
  (page_reachable w ->
   (exists st, lifecycle (ui w) = Some st)
   /\ ~ (error (ui w) <> None /\ data (ui w) <> JNull)
   /\ (waiting (calls w) <> 0%nat -> lifecycle (ui w) = Some Pending))
  /\ (reachable w ->
      loading (ui w) = true -> lifecycle (ui w) = Some Pending).
Proof.
  split.
  - intros Hreach. destruct (page_reachable_invariant w Hreach) as [_ Hinv].
    unfold lifecycle. destruct (loading (ui w)).
    + destruct Hinv as (-> & -> & _). repeat split; eauto. tauto.
    + destruct Hinv as (Hzero & Hor). repeat split.
      * destruct Hor as [->| ->]; [|destruct (error (ui w)); eauto].
        destruct (data (ui w)); eauto.
      * tauto.
      * intros Hw. contradiction.
  - intros Hreach Hl.
    destruct (reachable_loading_cells w Hreach Hl) as [He Hd].
    unfold lifecycle. now rewrite Hl, He, Hd.
Qed.

End Lifecycle.

Lemma invalid_timestamp_sends_nothing_witness :
  @Date_parse tokyo (endTime inputs_invalid) = None
  /\ exists w',
       @step tokyo initial (Submit inputs_invalid) = Some w'
       /\ lifecycle (ui w') = Some (Failed "Invalid date/time format")
       /\ requests w' = requests initial
       /\ calls w' = (calls initial ++ [None])%list
       /\ run (@handleSubmit tokyo inputs_invalid) (ui initial)
          = (ui w', Finished).
Proof.
  split; [reflexivity|].
  apply (@invalid_timestamp_sends_nothing tokyo initial inputs_invalid).
  right. reflexivity.
Defined.

Lemma loading_reset_when_resolved_witness :
  exists w,
    @step tokyo initial (Submit inputs_A) = Some w
    /\ forall r, exists w',
         @steps tokyo w (arrives 0 r) = Some w'
         /\ nth_error (calls w') 0 = Some None
         /\ loading (ui w') = false.
Proof.
  exists awaiting_A. split; [reflexivity|]. intros r.
  assert (Hreach : @reachable tokyo awaiting_A).
  { apply (@reachable_step tokyo initial (Submit inputs_A) awaiting_A);
      [apply reachable_initial | reflexivity]. }
  exact (proj1 (proj2 (@loading_reset_when_resolved tokyo awaiting_A Hreach))
           0%nat (@after_fetch tokyo) r eq_refl).
Defined.

Lemma lifecycle_is_one_variant_witness :
  exists w,
    @steps tokyo initial (Submit inputs_A :: arrives 0 response_A) = Some w
    /\ lifecycle (ui w) = Some (Succeeded (result_of 25544))
    /\ ~ (error (ui w) <> None /\ data (ui w) <> JNull).
Proof.
  pose (w0 := awaiting_A).
  pose (r := {| ok := true; json := Fulfilled (result_of 25544) |}).
  pose (w1 := {| ui := pending; requests := requests w0;
                 calls := [Some (WaitingJson r (@after_body tokyo r))] |}).
  pose (w2 := {| ui := succeeded pending (result_of 25544);
                 requests := requests w0; calls := [None] |}).
  exists w2. split; [reflexivity|]. split; [reflexivity|].
  assert (H0 : @page_reachable tokyo w0).
  { apply (@page_step tokyo initial (Submit inputs_A) w0);
      [apply page_initial | reflexivity | reflexivity]. }
  assert (H1 : @page_reachable tokyo w1).
  { apply (@page_step tokyo w0 (FetchSettles 0 response_A) w1);
      [exact H0 | reflexivity | reflexivity]. }
  assert (H2 : @page_reachable tokyo w2).
  { apply (@page_step tokyo w1 (BodySettles 0) w2);
      [exact H1 | reflexivity | reflexivity]. }
  exact (proj1 (proj2 (proj1 (@lifecycle_is_one_variant tokyo w2) H2))).
Defined.

(** ** Two submissions in flight *)

Lemma set_call_last_two (l : list (option Waiting)) x y c :
  set_call (List.length l) c ((l ++ [x]) ++ [y])%list = ((l ++ [c]) ++ [y])%list
  /\ set_call (S (List.length l)) c ((l ++ [x]) ++ [y])%list
     = ((l ++ [x]) ++ [c])%list.
Proof.
  pose proof (set_call_app_at l [x; y] 0 c) as E0.
  pose proof (set_call_app_at l [x; y] 1 c) as E1.
  rewrite Nat.add_0_r in E0. rewrite Nat.add_1_r in E1.
  change (set_call 0 c [x; y]) with [c; y] in E0.
  change (set_call 1 c [x; y]) with [x; c] in E1.
  rewrite <- !app_assoc. cbn [app]. now rewrite E0, E1.
Qed.

Lemma nth_error_last_one {A} (l : list A) x :
  nth_error (l ++ [x])%list (List.length l) = Some x.
Proof. induction l as [|z l IH]; cbn; auto. Qed.

Section Superseding.
Context {P : Platform}.

Lemma settle_alike rA rB :
  brings_result rA = brings_result rB ->
  settle rB (settle rA pending) = settle rB pending.
Proof.
  destruct rA as [a|ea], rB as [b|eb]; cbn;
    try destruct (ok a); try destruct (json a);
    try destruct (ok b); try destruct (json b);
    cbn; intros H; try discriminate; reflexivity.
Qed.

(** What a call leaves rendered depends on the result it brings. *)
Lemma Home_renders_settle r u :
  Home_renders (settle r pending) = true -> Home_renders u = true ->
  Home_renders (settle r u) = true.
Proof.
  unfold Home_renders.
  destruct r as [r|e]; cbn; [|auto].
  destruct (ok r); [destruct (json r)|]; cbn; auto.
Qed.

Lemma stays_mounted_cons w ev evs w' :
  step w ev = Some w' ->
  stays_mounted w (ev :: evs) = Home_renders (ui w) && stays_mounted w' evs.
Proof. intros H. cbn [stays_mounted]. now rewrite H. Qed.

Lemma waiting_call_blocks_the_form w i :
  page_reachable w -> waiting (calls w) <> 0%nat ->
  enabled w (Submit i) = false /\ form_submit w i = Some w.
Proof.
  intros Hreach Hw. destruct (page_reachable_invariant w Hreach) as [_ Hinv].
  unfold form_submit. cbn [enabled].
  destruct (loading (ui w)); [split; reflexivity|].
  destruct Hinv as [Hzero _]. contradiction.
Qed.

Ltac last_call_waits :=
  cbn [calls];
  first [ apply nth_error_last_one
        | apply (proj1 (nth_error_last_two _ _ _))
        | apply (proj2 (nth_error_last_two _ _ _)) ].

Ltac normal_calls :=
  cbn [calls ui requests];
  rewrite ?set_call_new,
          ?(proj1 (set_call_last_two _ _ _ _)),
          ?(proj2 (set_call_last_two _ _ _ _)).

Ltac one_step HsB HeB :=
  first [ rewrite (step_Submit_valid _ _ _ _ HsB HeB)
        | rewrite step_FetchSettles_fulfilled by last_call_waits
        | rewrite step_FetchSettles_rejected by last_call_waits
        | erewrite step_BodySettles by last_call_waits ];
  normal_calls.

Ltac one_mounted_step HsB HeB :=
  first [ erewrite stays_mounted_cons
            by (apply (step_Submit_valid _ _ _ _ HsB HeB))
        | erewrite stays_mounted_cons
            by (apply step_FetchSettles_fulfilled; last_call_waits)
        | erewrite stays_mounted_cons
            by (apply step_FetchSettles_rejected; last_call_waits)
        | erewrite stays_mounted_cons
            by (apply step_BodySettles; last_call_waits) ];
  normal_calls.

(** C1, as the page has it. Nothing is discarded: [handleSubmit] keeps
    no attempt id, and each of the two calls writes the cells when it
    returns, which is when its fetch is rejected or the body of its
    response has been read.  Whenever [B] is submitted after [A], and in
    whatever order the fetches and the readings of the two settle, the
    results brought being such as render, [Home] stays mounted and the
    cells end as follows: when [A]'s call returns last, as what it made
    of what [B]'s left; when [B]'s returns last and [A] was unresolved
    at the submission of [B], as what [B]'s made of what [A]'s left;
    as what [B] alone leaves when [A]'s call had returned before [B]
    was submitted, or returned first and ended the way [B]'s did (a
    result, or a failure).  From the form itself [B] is not submitted as
    long as a call waits: the submit button is disabled. *)
Theorem responses_apply_as_calls_return w iA iB sA eA sB eB rA rB :
  toUTCISOString (startTime iA) = inr sA ->
  toUTCISOString (endTime iA) = inr eA ->
  toUTCISOString (startTime iB) = inr sB ->
  toUTCISOString (endTime iB) = inr eB ->
  let a := List.length (calls w) in
  let b := S a in
  (forall evs,
     In evs (interleavings (arrives a rA) (Submit iB :: arrives b rB)) ->
     Home_renders (ui w) = true ->
     Home_renders (settle rA pending) = true ->
     Home_renders (settle rB pending) = true ->
     exists w',
       steps w (Submit iA :: evs) = Some w'
       /\ stays_mounted w (Submit iA :: evs) = true
       /\ (last_call evs = Some a \/ last_call evs = Some b)
       /\ (last_call evs = Some a -> ui w' = settle rA (settle rB pending))
       /\ (last_call evs = Some b ->
           (List.length (before_submit evs) < List.length (arrives a rA))%nat ->
           ui w' = settle rB (settle rA pending))
       /\ (List.length (before_submit evs) = List.length (arrives a rA) ->
           ui w' = settle rB pending))
  /\ (brings_result rA = brings_result rB ->
      settle rB (settle rA pending) = settle rB pending)
  /\ (forall w1 i,
        page_reachable w1 -> waiting (calls w1) <> 0%nat ->
        enabled w1 (Submit i) = false /\ form_submit w1 i = Some w1).
Proof.
  intros HsA HeA HsB HeB a b.
  split; [|split; [apply settle_alike | apply waiting_call_blocks_the_form]].
  intros evs Hin Hw HA HB.
  set (w1 := {| ui := pending;
                requests :=
                  (requests w
                   ++ [altitude_url (noradId iA) sA eA (stepSeconds iA)])%list;
                calls := (calls w ++ [Some (WaitingFetch after_fetch)])%list |}).
  assert (H1 : step w (Submit iA) = Some w1)
    by apply (step_Submit_valid w iA sA eA HsA HeA).
  assert (Hab : Some a <> Some b) by (subst b; intros H; injection H; lia).
  assert (Hba : Some b <> Some a) by (subst b; intros H; injection H; lia).
  assert (Hmount : forall evs',
             stays_mounted w1 evs' = true ->
             stays_mounted w (Submit iA :: evs') = true).
  { intros evs' Hevs.
    now rewrite (stays_mounted_cons w _ _ w1 H1), Hw. }
  subst a b. subst w1.
  destruct rA as [rA|eA'], rB as [rB|eB'];
    cbn [arrives interleavings map app] in Hin;
    repeat (destruct Hin as [<-|Hin]); try contradiction;
    (eexists; split;
     [ cbn [steps]; rewrite H1; repeat one_step HsB HeB; reflexivity
     | split;
       [ apply Hmount;
         repeat one_mounted_step HsB HeB; cbn [stays_mounted];
         repeat (apply andb_true_intro; split);
         try reflexivity; try assumption;
         try (apply Home_renders_settle; assumption)
       | cbn [last_call rev app call_of before_submit List.length arrives];
         repeat split; auto;
         try (intros H; contradiction);
         try (intros H; discriminate H);
         try (intros _ H; lia);
         try (intros _ H; reflexivity) ] ]).
Qed.

End Superseding.

Lemma responses_apply_as_calls_return_witness :
  exists w',
    @steps tokyo initial
      [Submit inputs_A; FetchSettles 0 response_A; Submit inputs_B;
       FetchSettles 1 response_B; BodySettles 1; BodySettles 0] = Some w'
    /\ @stays_mounted tokyo initial
         [Submit inputs_A; FetchSettles 0 response_A; Submit inputs_B;
          FetchSettles 1 response_B; BodySettles 1; BodySettles 0] = true
    /\ ui w' = @settle tokyo response_A (@settle tokyo response_B pending).
Proof.
  destruct (proj1
    (@responses_apply_as_calls_return tokyo initial inputs_A inputs_B
       "2025-12-31T21:00:00Z" "2026-01-01T03:00:00Z"
       "2025-12-31T21:00:00Z" "2026-01-01T03:00:00Z"
       response_A response_B eq_refl eq_refl eq_refl eq_refl)
    [FetchSettles 0 response_A; Submit inputs_B;
     FetchSettles 1 response_B; BodySettles 1; BodySettles 0])
    as (w' & Hsteps & Hm & _ & Ha & _).
  - cbn. auto 20.
  - reflexivity.
  - reflexivity.
  - reflexivity.
  - exists w'. split; [exact Hsteps|].
    split; [exact Hm | apply Ha; reflexivity].
Defined.

(** C1 as stated fails: [B]'s response arrives and is read, then [A]'s,
    and the result shown is [A]'s; the page renders all along. *)
Lemma late_response_overwrites :
  exists w',
    @steps tokyo initial
      ([Submit inputs_A; Submit inputs_B]
       ++ arrives 1 response_B ++ arrives 0 response_A)%list = Some w'
    /\ data (ui w') = result_of 25544
    /\ ui w' <> @settle tokyo response_B pending
    /\ @stays_mounted tokyo initial
         ([Submit inputs_A; Submit inputs_B]
          ++ arrives 1 response_B ++ arrives 0 response_A)%list = true.
Proof.
  eexists. split; [reflexivity|]. split; [reflexivity|].
  split; [|reflexivity].
  intros H.
  apply (f_equal (fun u => match data u with
                           | JObject ((_, JNumber x) :: _) =>
                               PrimFloat.eqb x 25544
                           | _ => false
                           end)) in H.
  vm_compute in H. discriminate.
Qed.

(** A result without [meta]: it is stored, and the render that follows
    throws at [data.meta.tle_epoch]. *)
Lemma result_without_meta_unmounts :
  let bare := JObject [("norad_id", JNumber 20580); ("points", JArray [])] in
  let answer := Fulfilled {| ok := true; json := Fulfilled bare |} in
  exists w',
    @steps tokyo awaiting_A (arrives 0 answer) = Some w'
    /\ data (ui w') = bare
    /\ results (@Home_view tokyo (ui w')) = RenderThrows
    /\ @stays_mounted tokyo awaiting_A (arrives 0 answer) = false.
Proof. eexists. repeat split. Qed.

(** ** The query string *)

Ltac each_byte c := destruct c as [[] [] [] [] [] [] [] []].

Lemma urldecoded_byte c rest :
  urldecoded (urlencoded_byte c ++ rest) = String c (urldecoded rest).
Proof. each_byte c; reflexivity. Qed.

Lemma urldecoded_urlencoded s : urldecoded (urlencoded s) = s.
Proof.
  induction s as [|c s IH]; [reflexivity|].
  cbn [urlencoded]. now rewrite urldecoded_byte, IH.
Qed.

Lemma occurs_amp_byte c : occurs "&" (urlencoded_byte c) = false.
Proof. each_byte c; reflexivity. Qed.

Lemma occurs_eq_byte c : occurs "=" (urlencoded_byte c) = false.
Proof. each_byte c; reflexivity. Qed.

Lemma occurs_amp_urlencoded s : occurs "&" (urlencoded s) = false.
Proof.
  induction s as [|c s IH]; [reflexivity|].
  cbn [urlencoded]. now rewrite occurs_append, occurs_amp_byte, IH.
Qed.

Lemma occurs_eq_urlencoded s : occurs "=" (urlencoded s) = false.
Proof.
  induction s as [|c s IH]; [reflexivity|].
  cbn [urlencoded]. now rewrite occurs_append, occurs_eq_byte, IH.
Qed.

Lemma split_at_first sep a rest :
  occurs sep a = false ->
  split_at sep (a ++ String sep rest) = (a, Some rest).
Proof.
  induction a as [|c a IH]; cbn; intros H.
  - now rewrite Ascii.eqb_refl.
  - apply orb_false_elim in H as [Hc Ha]. now rewrite Hc, IH.
Qed.

Lemma query_sequences_last a :
  occurs "&" a = false -> query_sequences a = [a].
Proof.
  induction a as [|c a IH]; cbn; intros H; [reflexivity|].
  apply orb_false_elim in H as [Hc Ha]. now rewrite Hc, IH.
Qed.

Lemma query_sequences_first a rest :
  occurs "&" a = false ->
  query_sequences (a ++ String "&" rest) = a :: query_sequences rest.
Proof.
  induction a as [|c a IH]; cbn; intros H; [reflexivity|].
  apply orb_false_elim in H as [Hc Ha]. now rewrite Hc, IH.
Qed.

Lemma query_pair_urlencoded name value :
  query_pair (urlencoded name ++ String "=" (urlencoded value))
  = (name, value).
Proof.
  unfold query_pair.
  rewrite split_at_first by apply occurs_eq_urlencoded.
  now rewrite !urldecoded_urlencoded.
Qed.

Lemma pair_not_empty a b : (a ++ String "=" b =? "")%string = false.
Proof. destruct a; reflexivity. Qed.

Lemma occurs_amp_pair name value :
  occurs "&" (urlencoded name ++ String "=" (urlencoded value)) = false.
Proof.
  rewrite occurs_append, occurs_amp_urlencoded. cbn.
  apply occurs_amp_urlencoded.
Qed.

Lemma URLSearchParams_toString_cons name value rest :
  URLSearchParams_toString ((name, value) :: rest)
  = (urlencoded name ++ String "=" (urlencoded value))
    ++ match rest with
       | [] => ""
       | _ => String "&" (URLSearchParams_toString rest)
       end.
Proof.
  cbn [URLSearchParams_toString].
  rewrite append_assoc. cbn [append]. now destruct rest.
Qed.

(** What [URLSearchParams] writes, the parser of the receiving side
    reads back: the same names bound to the same values, in order. *)
Lemma urlencoded_parse_toString params :
  urlencoded_parse (URLSearchParams_toString params) = params.
Proof.
  unfold urlencoded_parse.
  induction params as [|[name value] rest IH]; [reflexivity|].
  rewrite URLSearchParams_toString_cons.
  destruct rest as [|next rest].
  - rewrite append_empty_r.
    rewrite query_sequences_last by apply occurs_amp_pair.
    cbn [filter map]. rewrite pair_not_empty. cbn [negb map].
    now rewrite query_pair_urlencoded.
  - rewrite query_sequences_first by apply occurs_amp_pair.
    cbn [filter map]. rewrite pair_not_empty. cbn [negb map].
    now rewrite query_pair_urlencoded, IH.
Qed.

(** ** The request and its failure *)

Section Requests.
Context {P : Platform}.

Lemma altitude_query n s e seconds :
  URLSearchParams_toString (altitude_params n s e seconds)
  = "n=" ++ urlencoded n ++ "&start=" ++ urlencoded s
    ++ "&end=" ++ urlencoded e ++ "&step_seconds=" ++ urlencoded seconds.
Proof.
  unfold altitude_params. rewrite !URLSearchParams_toString_cons.
  cbn [urlencoded urlencoded_byte append].
  rewrite !append_assoc, append_empty_r. reflexivity.
Qed.

(** C7. When both timestamps normalize, the request of a submission
    goes to [/altitude] of the backend with the query [n], [start],
    [end], [step_seconds], in this order, bound to the catalog number,
    the two normalized timestamps and the step, each
    form-urlencoded: the receiving parser reads exactly these four
    pairs.  The URL is the value of a pure expression, and the fetch of
    it is the first thing [handleSubmit] waits for. *)
Theorem request_carries_the_four_parameters w i s e :
  toUTCISOString (startTime i) = inr s ->
  toUTCISOString (endTime i) = inr e ->
  exists w' query,
    step w (Submit i) = Some w'
    /\ requests w' = (requests w ++ [(backendUrl ++ "/altitude?" ++ query)%string])%list
    /\ query = "n=" ++ urlencoded (noradId i) ++ "&start=" ++ urlencoded s
               ++ "&end=" ++ urlencoded e
               ++ "&step_seconds=" ++ urlencoded (stepSeconds i)
    /\ urlencoded_parse query
       = [("n", noradId i); ("start", s); ("end", e);
          ("step_seconds", stepSeconds i)]
    /\ run (handleSubmit i) (ui w)
       = (pending, AtFetch (backendUrl ++ "/altitude?" ++ query) after_fetch).
Proof.
  intros Es Ee.
  exists {| ui := pending;
            requests :=
              (requests w
               ++ [altitude_url (noradId i) s e (stepSeconds i)])%list;
            calls := (calls w ++ [Some (WaitingFetch after_fetch)])%list |}.
  exists (URLSearchParams_toString
            (altitude_params (noradId i) s e (stepSeconds i))).
  split; [apply (step_Submit_valid w i s e Es Ee)|].
  split; [reflexivity|].
  split; [apply altitude_query|].
  split; [apply urlencoded_parse_toString|].
  apply (run_handleSubmit_valid i _ s e Es Ee).
Qed.

Lemma ToString_JArray_cons x y rest :
  ToString (JArray (x :: y :: rest))
  = match match x with
          | JUndefined | JNull => inr EmptyString
          | _ => ToString x
          end with
    | inl e => inl e
    | inr sx =>
        match ToString (JArray (y :: rest)) with
        | inl e => inl e
        | inr sr => inr (sx ++ "," ++ sr)
        end
    end.
Proof. reflexivity. Qed.

Lemma ToString_JArray_one x :
  ToString (JArray [x])
  = match x with
    | JUndefined | JNull => inr EmptyString
    | _ => ToString x
    end.
Proof. cbn. destruct x; try reflexivity; now destruct (ToString _). Qed.

(** Induction on a value of JSON, through the items of its arrays. *)
Lemma JsValue_items_ind (Q : JsValue -> Prop) :
  Q JUndefined -> Q JNull -> (forall b, Q (JBool b)) ->
  (forall x, Q (JNumber x)) -> (forall s, Q (JString s)) ->
  (forall items, Forall Q items -> Q (JArray items)) ->
  (forall properties, Q (JObject properties)) ->
  forall v, Q v.
Proof.
  intros HU HN HB HX HS HA HO.
  refine (fix IH (v : JsValue) : Q v :=
            match v with
            | JUndefined => HU
            | JNull => HN
            | JBool b => HB b
            | JNumber x => HX x
            | JString s => HS s
            | JArray items =>
                HA items
                  ((fix all (l : list JsValue) : Forall Q l :=
                      match l with
                      | [] => Forall_nil Q
                      | x :: rest => Forall_cons x (IH x) (all rest)
                      end) items)
            | JObject properties => HO properties
            end).
Qed.

(** The only exception of [ToString] on a value of JSON is the
    TypeError of an object that hides [toString]. *)
Lemma ToString_throws v : forall e,
  ToString v = inl e -> e = ErrorObject TypeError_cannot_convert.
Proof.
  induction v as [| |b|x|s|items IH|properties] using JsValue_items_ind;
    intros e; try discriminate.
  - induction IH as [|x rest Hx _ IHrest]; [discriminate|].
    assert (Hx' : forall e',
               match x with
               | JUndefined | JNull => inr EmptyString
               | _ => ToString x
               end = inl e' -> e' = ErrorObject TypeError_cannot_convert).
    { intros e' H. destruct x; try discriminate; exact (Hx _ H). }
    destruct rest as [|y rest].
    + rewrite ToString_JArray_one. apply Hx'.
    + rewrite ToString_JArray_cons.
      destruct (match x with
                | JUndefined | JNull => inr EmptyString
                | _ => ToString x
                end) as [ex|sx] eqn:Ex.
      * intros H. injection H as <-. apply Hx'. reflexivity.
      * destruct (ToString (JArray (y :: rest))) as [er|sr] eqn:Er;
          [|discriminate].
        intros H. injection H as <-. apply IHrest. reflexivity.
  - cbn [ToString].
    destruct (own_property "toString" properties); [|discriminate].
    intros H. injection H as <-. reflexivity.
Qed.

Lemma request_failed_message_throws r body e :
  json r = Fulfilled body ->
  truthy (optional_detail body) = true ->
  ToString (optional_detail body) = inl e ->
  request_failed_message r = TypeError_cannot_convert.
Proof.
  intros Hb Ht Hs. unfold request_failed_message, or_else.
  rewrite Hb, Ht, Hs. now rewrite (ToString_throws _ _ Hs).
Qed.

Lemma request_failed_message_cases r :
  (forall body d,
     json r = Fulfilled body -> optional_detail body = JString d ->
     d <> "" -> request_failed_message r = d)
  /\ (forall body d,
        json r = Fulfilled body ->
        truthy (optional_detail body) = true ->
        ToString (optional_detail body) = inr d ->
        request_failed_message r = d)
  /\ (forall body,
        json r = Fulfilled body -> truthy (optional_detail body) = false ->
        request_failed_message r = fallback_detail)
  /\ (forall e, json r = Rejected e -> request_failed_message r = fallback_detail).
Proof.
  unfold request_failed_message, or_else. repeat split.
  - intros body d -> Hd Hne. rewrite Hd. cbn.
    destruct (String.eqb_spec d ""); [contradiction | reflexivity].
  - intros body d -> Ht Hs. now rewrite Ht, Hs.
  - intros body -> Ht. now rewrite Ht.
  - now intros e ->.
Qed.

(** C8, as the page has it. The message of a response that is not [ok]
    is the [detail] of its JSON body when that is a string and not
    empty; any other [detail] that counts as true is converted to a
    string, and when that conversion throws, as it does for an object
    with a property named [toString], the message is that of the
    TypeError; the message is ["Failed to fetch altitude data"] when the
    body is not JSON, or has no [detail], or has one that counts as
    false: [null], [false], zero or the empty string. *)
Theorem failure_message_of_response w id r :
  nth_error (calls w) id = Some (Some (WaitingFetch after_fetch)) ->
  ok r = false ->
  exists w' message,
    steps w (arrives id (Fulfilled r)) = Some w'
    /\ ui w' = failed (ui w) message
    /\ (forall body d,
          json r = Fulfilled body -> optional_detail body = JString d ->
          d <> "" -> message = d)
    /\ (forall body d,
          json r = Fulfilled body ->
          truthy (optional_detail body) = true ->
          ToString (optional_detail body) = inr d ->
          message = d)
    /\ (forall body e,
          json r = Fulfilled body ->
          truthy (optional_detail body) = true ->
          ToString (optional_detail body) = inl e ->
          message = TypeError_cannot_convert)
    /\ (forall body properties value,
          json r = Fulfilled body ->
          optional_detail body = JObject properties ->
          own_property "toString" properties = Some value ->
          message = TypeError_cannot_convert)
    /\ (forall body,
          json r = Fulfilled body -> truthy (optional_detail body) = false ->
          message = "Failed to fetch altitude data")
    /\ (forall e,
          json r = Rejected e -> message = "Failed to fetch altitude data").
Proof.
  intros Hcall Hok. eexists. exists (request_failed_message r).
  split; [apply (steps_arrives w id (Fulfilled r) Hcall)|].
  split; [cbn [ui settle]; now rewrite Hok|].
  destruct (request_failed_message_cases r) as (Hd & Hs & Hf & Hr).
  repeat split; try assumption.
  - intros body e. apply request_failed_message_throws.
  - intros body properties value Hb Hdetail Hown.
    apply (request_failed_message_throws r body
             (ErrorObject TypeError_cannot_convert) Hb).
    + now rewrite Hdetail.
    + rewrite Hdetail. cbn [ToString]. now rewrite Hown.
Qed.

(** C9, as the page has it. [handleSubmit] has no range check: called
    with a step of [0] or of [5000] it leaves the state pending without
    an error, and its request carries [step_seconds] with the step as it
    was typed; what the backend then answers with a response that is not
    [ok] is shown as it is, the error being the message of that response,
    its [detail] when that is a string that is not empty.  The form
    does have one: the step input has [min="1"] and [max="3600"], so a
    submission of such a step by the form's own controls does not call
    [handleSubmit], and nothing is sent. *)
Theorem step_out_of_range_only_the_form_refuses w i s e seconds :
  seconds = "0" \/ seconds = "5000" ->
  stepSeconds i = seconds ->
  toUTCISOString (startTime i) = inr s ->
  toUTCISOString (endTime i) = inr e ->
  (exists w' prefix,
     step w (Submit i) = Some w'
     /\ ui w' = pending
     /\ requests w'
        = (requests w ++ [(prefix ++ "&step_seconds=" ++ seconds)%string])%list
     /\ (exists query,
           prefix ++ "&step_seconds=" ++ seconds
           = backendUrl ++ "/altitude?" ++ query
           /\ In ("step_seconds", seconds) (urlencoded_parse query))
     /\ forall r,
          ok r = false ->
          exists w'',
            steps w' (arrives (List.length (calls w)) (Fulfilled r)) = Some w''
            /\ error (ui w'') = Some (request_failed_message r)
            /\ data (ui w'') = JNull
            /\ forall body detail,
                 json r = Fulfilled body ->
                 optional_detail body = JString detail -> detail <> "" ->
                 error (ui w'') = Some detail)
  /\ checkValidity i = false
  /\ form_submit w i = Some w.
Proof.
  intros Hsec Hstep Es Ee.
  assert (Hform : checkValidity i = false).
  { unfold checkValidity. rewrite Hstep.
    replace (number_input_valid 1 (Some 3600) seconds) with false
      by (destruct Hsec as [-> | ->]; reflexivity).
    now rewrite andb_false_r. }
  split; [|split; [exact Hform|];
           unfold form_submit; now rewrite Hform, andb_false_r].
  exists {| ui := pending;
            requests :=
              (requests w
               ++ [altitude_url (noradId i) s e (stepSeconds i)])%list;
            calls := (calls w ++ [Some (WaitingFetch after_fetch)])%list |}.
  exists (backendUrl ++ "/altitude?" ++ "n=" ++ urlencoded (noradId i)
          ++ "&start=" ++ urlencoded s ++ "&end=" ++ urlencoded e).
  assert (Eurl : altitude_url (noradId i) s e (stepSeconds i)
                 = (backendUrl ++ "/altitude?" ++ "n=" ++ urlencoded (noradId i)
                    ++ "&start=" ++ urlencoded s ++ "&end=" ++ urlencoded e)
                   ++ "&step_seconds=" ++ seconds).
  { unfold altitude_url. rewrite altitude_query, Hstep.
    replace (urlencoded seconds) with seconds
      by (destruct Hsec as [-> | ->]; reflexivity).
    repeat rewrite append_assoc. cbn [append].
    repeat rewrite append_assoc. reflexivity. }
  split; [apply (step_Submit_valid w i s e Es Ee)|].
  split; [reflexivity|].
  split; [cbn [requests]; now rewrite Eurl|].
  split.
  - exists (URLSearchParams_toString
              (altitude_params (noradId i) s e (stepSeconds i))).
    split; [now rewrite <- Eurl|].
    rewrite urlencoded_parse_toString, Hstep. cbn. auto.
  - intros r Hok. eexists.
    split.
    + apply steps_arrives. cbn [calls].
      rewrite nth_error_app2 by lia. now rewrite Nat.sub_diag.
    + cbn [ui settle]. rewrite Hok. cbn [failed error data pending].
      repeat split.
      intros body detail Hb Hd Hne. f_equal.
      exact (proj1 (request_failed_message_cases r) body detail Hb Hd Hne).
Qed.

End Requests.

Lemma request_carries_the_four_parameters_witness :
  exists w' query,
    @step tokyo initial (Submit inputs_A) = Some w'
    /\ requests w' = ["http://127.0.0.1:8000/altitude?" ++ query]
    /\ query = "n=25544&start=2025-12-31T21%3A00%3A00Z"
               ++ "&end=2026-01-01T03%3A00%3A00Z&step_seconds=60"
    /\ urlencoded_parse query
       = [("n", "25544"); ("start", "2025-12-31T21:00:00Z");
          ("end", "2026-01-01T03:00:00Z"); ("step_seconds", "60")]
    /\ run (@handleSubmit tokyo inputs_A) (ui initial)
       = (pending,
          AtFetch ("http://127.0.0.1:8000/altitude?" ++ query)
            (@after_fetch tokyo)).
Proof.
  exact (@request_carries_the_four_parameters tokyo initial inputs_A
           "2025-12-31T21:00:00Z" "2026-01-01T03:00:00Z" eq_refl eq_refl).
Defined.

Lemma failure_message_of_response_witness :
  exists w',
    @steps tokyo awaiting_A
      (arrives 0 (Fulfilled (refusal (JString "step_seconds out of range"))))
    = Some w'
    /\ ui w' = failed pending "step_seconds out of range".
Proof.
  destruct (@failure_message_of_response tokyo awaiting_A 0
              (refusal (JString "step_seconds out of range")) eq_refl eq_refl)
    as (w' & message & Hsteps & Hui & Hdetail & _).
  exists w'. split; [exact Hsteps|].
  rewrite Hui.
  rewrite (Hdetail _ "step_seconds out of range" eq_refl eq_refl);
    [reflexivity | discriminate].
Defined.

(** C8 as stated fails: the body is JSON and has a [detail], the empty
    string, and the message is not that [detail] but the fallback. *)
Lemma empty_detail_gives_fallback :
  json (refusal (JString "")) = Fulfilled (JObject [("detail", JString "")])
  /\ exists w',
       @steps tokyo awaiting_A (arrives 0 (Fulfilled (refusal (JString ""))))
       = Some w'
       /\ error (ui w') = Some "Failed to fetch altitude data"
       /\ error (ui w') <> Some "".
Proof.
  split; [reflexivity|].
  eexists. split; [reflexivity|]. split; [reflexivity | discriminate].
Qed.

Lemma step_out_of_range_only_the_form_refuses_witness :
  (exists w',
     @step tokyo initial (Submit inputs_step_0) = Some w'
     /\ ui w' = pending
     /\ requests w'
        = ["http://127.0.0.1:8000/altitude?n=25544"
           ++ "&start=2025-12-31T21%3A00%3A00Z&end=2026-01-01T03%3A00%3A00Z"
           ++ "&step_seconds=0"]
     /\ exists w'',
          @steps tokyo w'
            (arrives 0 (Fulfilled (refusal (JString "step_seconds out of range"))))
          = Some w''
          /\ error (ui w'') = Some "step_seconds out of range")
  /\ @checkValidity tokyo inputs_step_0 = false
  /\ @form_submit tokyo initial inputs_step_0 = Some initial.
Proof.
  destruct (@step_out_of_range_only_the_form_refuses tokyo initial
              inputs_step_0 "2025-12-31T21:00:00Z" "2026-01-01T03:00:00Z" "0"
              (or_introl eq_refl) eq_refl eq_refl eq_refl)
    as ((w' & prefix & Hstep & Hui & Hreq & _ & Hanswer) & Hvalid & Hform).
  split; [|split; assumption].
  exists w'. split; [exact Hstep|]. split; [exact Hui|].
  split.
  - injection Hstep as <-. reflexivity.
  - destruct (Hanswer (refusal (JString "step_seconds out of range")) eq_refl)
      as (w'' & Hsteps & _ & _ & Hdetail).
    exists w''. split; [exact Hsteps|].
    apply (Hdetail _ "step_seconds out of range" eq_refl eq_refl).
    discriminate.
Defined.

(** C9 as stated fails: submitted by the form, a step of [0] or of
    [5000] is refused by the step input, [handleSubmit] is not called
    and nothing is sent, where the same submission with a step of [60]
    sends its request. *)
Lemma form_refuses_step_out_of_range :
  @form_submit tokyo initial inputs_step_0 = Some initial
  /\ @form_submit tokyo initial inputs_step_5000 = Some initial
  /\ requests initial = []
  /\ @form_submit tokyo initial inputs_A = Some awaiting_A
  /\ requests awaiting_A <> [].
Proof. repeat split. discriminate. Qed.

(** A [detail] that hides [toString]: the message is the TypeError's. *)
Lemma toString_detail_gives_TypeError :
  exists w',
    @steps tokyo awaiting_A
      (arrives 0 (Fulfilled (refusal (JObject [("toString", JString "x")]))))
    = Some w'
    /\ error (ui w') = Some "Cannot convert object to primitive value".
Proof. eexists. split; reflexivity. Qed.

(** ** The statistics card *)

Section StatisticsProperties.
Context {P : Platform}.

(** C6. Over three samples of 400, 420 and 410 km, whatever their
    times, the minimum is 400, the maximum 420, the mean 410 and the
    range 20, and the card shows them with two decimals. *)
Theorem statistics_of_three_samples t1 t2 t3 :
  let points := [ {| t := t1; alt_km := 400 |}; {| t := t2; alt_km := 420 |};
                  {| t := t3; alt_km := 410 |} ] in
  minAltitude points = 400%float
  /\ maxAltitude points = 420%float
  /\ avgAltitude points = 410%float
  /\ altitudeRange points = 20%float
  /\ statisticsCard points
     = {| shown_min := "400.00"; shown_max := "420.00";
          shown_avg := "410.00"; shown_range := "20.00" |}.
Proof. repeat split; vm_compute; reflexivity. Qed.

(** C2, as the page has it. Over no samples the statistics do not
    fail: there is no check for an empty series, and the card is made of
    the same four expressions as over any samples, which here are
    [Infinity], [-Infinity], [NaN] and [-Infinity]. *)
Theorem statistics_of_no_samples :
  statisticsCard []
  = {| shown_min := "Infinity"; shown_max := "-Infinity";
       shown_avg := "NaN"; shown_range := "-Infinity" |}.
Proof. vm_compute. reflexivity. Qed.

End StatisticsProperties.

(** C2 as stated fails: over no samples the mean is NaN, the minimum
    and the maximum are infinite, and so is the range. *)
Lemma no_samples_give_non_numbers :
  is_nan (avgAltitude []) = true
  /\ minAltitude [] = infinity
  /\ maxAltitude [] = neg_infinity
  /\ altitudeRange [] = neg_infinity
  /\ shown_avg (@statisticsCard tokyo []) = "NaN".
Proof. repeat split; vm_compute; reflexivity. Qed.

(** C3 as stated fails: [handleSubmit] is called again before the first
    response (the two submissions of C1), the first call ends in a
    failure and the second in a result, and the error and the result are
    set together. *)
Lemma overlapping_calls_leave_error_and_result :
  exists w,
    @steps tokyo initial
      ([Submit inputs_A; Submit inputs_B]
       ++ arrives 0 (Rejected (ErrorObject "Failed to fetch"))
       ++ arrives 1 response_B)%list = Some w
    /\ error (ui w) = Some "Failed to fetch"
    /\ data (ui w) = result_of 20580
    /\ lifecycle (ui w) = None.
Proof. eexists. repeat split. Qed.

(* ================================================================== *)
(** * Part III: further properties of the page                         *)
(* ================================================================== *)

(** ** Requests, calls and what is shown *)

Section Page.
Context {P : Platform}.

(** X1. Only a submission sends a request, and one at most: no answer,
    of any kind, makes the page fetch again. *)
Theorem only_submissions_send_requests w ev w' :
  reachable w -> step w ev = Some w' ->
  requests w' = requests w
  \/ exists i url,
       ev = Submit i /\ requests w' = (requests w ++ [url])%list.
Proof.
  intros Hreach Hstep. pose proof (reachable_known w Hreach) as Hk.
  destruct (step_cases w ev w' Hk Hstep)
    as [(i & _ & _ & ->)|[(i & s & e & -> & _ & _ & ->)|[(id & e & _ & _ & ->)
       |[(id & r & _ & _ & ->)|(id & r & _ & _ & ->)]]]];
    cbn [requests]; eauto.
Qed.


(** X3. [handleSubmit] catches everything: whatever its inputs and
    whatever the fetch and the body settle to, no path through it ends
    in an exception. *)
Theorem handleSubmit_catches_everything i : all_caught (handleSubmit i).
Proof.
  unfold handleSubmit. cbn [setLoading setError setData bind all_caught].
  destruct (toUTCISOString (startTime i)) as [e|s]; cbn; [exact I|].
  destruct (toUTCISOString (endTime i)) as [e|e']; cbn; [exact I|].
  intros [r|e]; cbn; [|exact I].
  destruct (ok r); cbn.
  - intros [v|e]; cbn; exact I.
  - intros [v|e]; cbn; [|exact I].
    unfold throw_new_Error. destruct (ToString _); cbn; exact I.
Qed.

(** X4. A fetch that is rejected, and a response that is [ok] with a
    body that cannot be read as JSON, end in the message of what was
    thrown, not in the fallback; a thrown value that is no [Error] ends
    in ["An error occurred"]. The result cell is left as it was. *)
Theorem thrown_message_is_shown w id r thrown :
  nth_error (calls w) id = Some (Some (WaitingFetch after_fetch)) ->
  r = Rejected thrown
  \/ (exists response,
        r = Fulfilled response /\ ok response = true
        /\ json response = Rejected thrown) ->
  exists w',
    steps w (arrives id r) = Some w'
    /\ loading (ui w') = false
    /\ data (ui w') = data (ui w)
    /\ error (ui w')
       = Some match thrown with
              | ErrorObject message => message
              | NonError => "An error occurred"
              end.
Proof.
  intros Hcall Hr. eexists. split; [apply (steps_arrives w id r Hcall)|].
  cbn [ui]. destruct Hr as [->|(response & -> & Hok & Hjson)]; cbn [settle].
  - now destruct thrown.
  - rewrite Hok, Hjson. now destruct thrown.
Qed.

Lemma ToString_plain_objects items :
  items <> [] -> Forall plain_object items ->
  ToString (JArray items)
  = inr (String.concat "," (map (fun _ => "[object Object]") items)).
Proof.
  intros Hne Hall. cbn [ToString].
  induction Hall as [|x rest (properties & -> & Hown) Hrest IH];
    [contradiction|].
  cbn [ToString map String.concat]. rewrite Hown.
  destruct rest as [|y rest]; [reflexivity|].
  rewrite IH by discriminate. reflexivity.
Qed.

(** X5. A response that is not [ok] and whose [detail] is a list of
    objects (a validation report) ends in ["[object Object]"], once for
    each object, with commas between: what the objects say is not
    shown. *)
Theorem report_of_objects_is_not_shown w id response body items :
  nth_error (calls w) id = Some (Some (WaitingFetch after_fetch)) ->
  ok response = false ->
  json response = Fulfilled body ->
  optional_detail body = JArray items ->
  items <> [] -> Forall plain_object items ->
  exists w',
    steps w (arrives id (Fulfilled response)) = Some w'
    /\ error (ui w')
       = Some (String.concat "," (map (fun _ => "[object Object]") items)).
Proof.
  intros Hcall Hok Hjson Hdetail Hne Hall.
  eexists. split; [apply (steps_arrives w id _ Hcall)|].
  cbn [ui settle]. rewrite Hok. cbn [failed error].
  unfold request_failed_message, or_else.
  rewrite Hjson, Hdetail. cbn [truthy].
  now rewrite (ToString_plain_objects items Hne Hall).
Qed.

(** X6. In no state of the page are the error panel and the results
    panel both rendered, and while the submit button is disabled
    neither is, nor anything in their place. *)
Theorem panels_exclude_each_other w :
  page_reachable w ->
  ~ (error_panel (Home_view (ui w)) <> None
     /\ results (Home_view (ui w)) = ResultsPanel)
  /\ (submit_disabled (Home_view (ui w)) = true ->
      error_panel (Home_view (ui w)) = None
      /\ results (Home_view (ui w)) = NoResults).
Proof.
  intros Hreach. destruct (page_reachable_invariant w Hreach) as [_ Hinv].
  unfold Home_view. cbn [error_panel results submit_disabled].
  destruct (loading (ui w)).
  - destruct Hinv as (-> & -> & _). split; [|now split].
    intros [H _]. now apply H.
  - destruct Hinv as (_ & [-> | ->]); (split; [|discriminate]).
    + intros [H _]. now apply H.
    + intros [_ H]. discriminate.
Qed.


(** X8. A response that is [ok] with a body that counts as false
    ([null], [false], a zero, the empty string) leaves no results panel
    and no error panel: after it the page of a first submission shows
    what it showed before any. *)
Theorem empty_result_shows_no_panel w id response body :
  page_reachable w ->
  nth_error (calls w) id = Some (Some (WaitingFetch after_fetch)) ->
  ok response = true ->
  json response = Fulfilled body ->
  truthy body = false ->
  exists w',
    steps w (arrives id (Fulfilled response)) = Some w'
    /\ submit_disabled (Home_view (ui w')) = false
    /\ error_panel (Home_view (ui w')) = None
    /\ results (Home_view (ui w')) <> ResultsPanel
    /\ (body = JNull -> Home_view (ui w') = Home_view (ui initial)).
Proof.
  intros Hreach Hcall Hok Hjson Hfalse.
  destruct (page_reachable_invariant w Hreach) as [_ Hinv].
  pose proof (nth_error_waiting _ _ _ Hcall) as Hw.
  destruct (loading (ui w)); [|lia].
  destruct Hinv as (He & _ & _).
  eexists. split; [apply (steps_arrives w id _ Hcall)|].
  cbn [ui settle]. rewrite Hok, Hjson.
  unfold Home_view, succeeded.
  cbn [submit_disabled error_panel results loading error data].
  rewrite He, Hfalse. repeat split.
  - destruct body; discriminate.
  - now intros ->.
Qed.

End Page.

Lemma awaiting_A_page_reachable : @page_reachable tokyo awaiting_A.
Proof.
  apply (@page_step tokyo initial (Submit inputs_A) awaiting_A);
    [apply page_initial | reflexivity | reflexivity].
Qed.

Lemma only_submissions_send_requests_witness :
  requests awaiting_A = requests initial
  \/ exists i url,
       Submit inputs_A = Submit i
       /\ requests awaiting_A = (requests initial ++ [url])%list.
Proof.
  exact (@only_submissions_send_requests tokyo initial (Submit inputs_A)
           awaiting_A (@reachable_initial tokyo) eq_refl).
Defined.


Lemma thrown_message_is_shown_witness :
  exists w',
    @steps tokyo awaiting_A (arrives 0 (Fulfilled not_json)) = Some w'
    /\ loading (ui w') = false
    /\ data (ui w') = data (ui awaiting_A)
    /\ error (ui w') = Some "Unexpected token < in JSON".
Proof.
  apply (@thrown_message_is_shown tokyo awaiting_A 0 (Fulfilled not_json)
           (ErrorObject "Unexpected token < in JSON") eq_refl).
  right. exists not_json. repeat split.
Defined.

Lemma report_of_objects_is_not_shown_witness :
  exists w',
    @steps tokyo awaiting_A (arrives 0 (Fulfilled (refusal validation_report)))
    = Some w'
    /\ error (ui w') = Some "[object Object]".
Proof.
  refine (@report_of_objects_is_not_shown tokyo awaiting_A 0
            (refusal validation_report) _ _ eq_refl eq_refl eq_refl eq_refl _ _).
  - discriminate.
  - repeat constructor. eexists. split; reflexivity.
Defined.

Lemma panels_exclude_each_other_witness :
  ~ (error_panel (@Home_view tokyo (ui awaiting_A)) <> None
     /\ results (@Home_view tokyo (ui awaiting_A)) = ResultsPanel)
  /\ (submit_disabled (@Home_view tokyo (ui awaiting_A)) = true ->
      error_panel (@Home_view tokyo (ui awaiting_A)) = None
      /\ results (@Home_view tokyo (ui awaiting_A)) = NoResults).
Proof.
  exact (@panels_exclude_each_other tokyo awaiting_A awaiting_A_page_reachable).
Defined.


Lemma empty_result_shows_no_panel_witness :
  exists w',
    @steps tokyo awaiting_A
      (arrives 0 (Fulfilled {| ok := true; json := Fulfilled JNull |}))
    = Some w'
    /\ submit_disabled (@Home_view tokyo (ui w')) = false
    /\ error_panel (@Home_view tokyo (ui w')) = None
    /\ results (@Home_view tokyo (ui w')) <> ResultsPanel
    /\ (JNull = JNull -> @Home_view tokyo (ui w') = @Home_view tokyo (ui initial)).
Proof.
  exact (@empty_result_shows_no_panel tokyo awaiting_A 0
           {| ok := true; json := Fulfilled JNull |} JNull
           awaiting_A_page_reachable eq_refl eq_refl eq_refl eq_refl).
Defined.

(** ** The query string, whatever the inputs *)

Lemma count_char_append c a b :
  count_char c (a ++ b) = (count_char c a + count_char c b)%nat.
Proof. induction a as [|x a IH]; cbn; [reflexivity|]. rewrite IH. lia. Qed.

Lemma string_forallb_append f a b :
  string_forallb f (a ++ b) = string_forallb f a && string_forallb f b.
Proof.
  induction a as [|x a IH]; cbn; [reflexivity|]. now rewrite IH, andb_assoc.
Qed.

Lemma count_char_absent c s : occurs c s = false -> count_char c s = 0%nat.
Proof.
  induction s as [|x s IH]; cbn; [reflexivity|]. intros H.
  apply orb_false_elim in H as [-> Hs]. now rewrite IH.
Qed.

Lemma query_char_byte c : string_forallb query_char (urlencoded_byte c) = true.
Proof. each_byte c; reflexivity. Qed.

Lemma query_char_urlencoded s : string_forallb query_char (urlencoded s) = true.
Proof.
  induction s as [|c s IH]; [reflexivity|].
  cbn [urlencoded]. now rewrite string_forallb_append, query_char_byte, IH.
Qed.

Lemma append_inv_head (a x y : string) : a ++ x = a ++ y -> x = y.
Proof. induction a as [|c a IH]; cbn; [auto|]. intros [= H]. auto. Qed.

(** X9. Whatever is typed into the four inputs, the query of the
    request is made of unreserved characters, [+], [%] and the
    separators only, with exactly four [=] and three [&]: no value opens
    a fifth parameter, ends the query or reaches the fragment. *)
Theorem query_is_well_formed n s e seconds :
  let query := URLSearchParams_toString (altitude_params n s e seconds) in
  string_forallb query_char query = true
  /\ count_char "=" query = 4%nat
  /\ count_char "&" query = 3%nat
  /\ occurs "#" query = false /\ occurs " " query = false.
Proof.
  cbv zeta. rewrite altitude_query.
  repeat rewrite string_forallb_append.
  repeat rewrite count_char_append.
  repeat rewrite occurs_append.
  repeat rewrite query_char_urlencoded.
  repeat rewrite (count_char_absent "=" _ (occurs_eq_urlencoded _)).
  repeat rewrite (count_char_absent "&" _ (occurs_amp_urlencoded _)).
  assert (Hhash : forall x, occurs "#" (urlencoded x) = false).
  { induction x as [|c x IH]; [reflexivity|]. cbn [urlencoded].
    rewrite occurs_append, IH, orb_false_r. each_byte c; reflexivity. }
  assert (Hsp : forall x, occurs " " (urlencoded x) = false).
  { induction x as [|c x IH]; [reflexivity|]. cbn [urlencoded].
    rewrite occurs_append, IH, orb_false_r. each_byte c; reflexivity. }
  repeat rewrite Hhash. repeat rewrite Hsp.
  repeat split.
Qed.

Section Urls.
Context {P : Platform}.

(** X10. Different inputs never give the same URL: from the URL the
    four values are recovered, so a value cannot pass for another or
    spill into the next parameter. *)
Theorem altitude_url_injective n s e seconds n' s' e' seconds' :
  altitude_url n s e seconds = altitude_url n' s' e' seconds' ->
  n = n' /\ s = s' /\ e = e' /\ seconds = seconds'.
Proof.
  unfold altitude_url. intros H.
  apply append_inv_head in H. apply append_inv_head in H.
  apply (f_equal urlencoded_parse) in H.
  rewrite !urlencoded_parse_toString in H.
  unfold altitude_params in H. now injection H as -> -> -> ->.
Qed.

End Urls.

Lemma altitude_url_injective_witness :
  "25544" = "25544" /\ "a&n=1" = "a&n=1" /\ "b" = "b" /\ "60" = "60".
Proof.
  exact (@altitude_url_injective tokyo "25544" "a&n=1" "b" "60"
           "25544" "a&n=1" "b" "60" eq_refl).
Defined.

(** ** More on the calendar and on [toUTCISOString] *)

Ltac month_cases :=
  repeat match goal with
         | |- context [Z.sub (Zpos ?p) 1] =>
             let v := eval vm_compute in (Z.sub (Zpos p) 1) in
             change (Z.sub (Zpos p) 1) with v
         end;
  cbv beta iota zeta delta [Z.eqb Pos.eqb] in *.

Lemma YearFromDay_unique d y :
  DayFromYear y <= d < DayFromYear (y + 1) -> YearFromDay d = y.
Proof.
  intros [Hlo Hhi].
  pose proof (YearFromDay_largest d y Hlo) as Hle.
  destruct (Z.eq_dec (YearFromDay d) y) as [|Hne]; [assumption|].
  pose proof (YearFromDay_bracket d) as [Hb _].
  pose proof (DayFromYear_monotone (y + 1) (YearFromDay d) ltac:(lia)). lia.
Qed.

Lemma DaysBeforeMonth_within y mo d :
  1 <= mo <= 12 -> 1 <= d <= DaysInMonth y mo ->
  0 <= DaysBeforeMonth y (mo - 1) + d - 1 < DaysInYear y.
Proof.
  intros Hmo Hd.
  assert (mo = 1 \/ mo = 2 \/ mo = 3 \/ mo = 4 \/ mo = 5 \/ mo = 6 \/ mo = 7
          \/ mo = 8 \/ mo = 9 \/ mo = 10 \/ mo = 11 \/ mo = 12)
    as [->|[->|[->|[->|[->|[->|[->|[->|[->|[->|[->| ->]]]]]]]]]]] by lia;
    unfold DaysBeforeMonth, DaysInMonth in *;
    destruct (DaysInYear_cases y) as [E|E]; rewrite E in *; month_cases; lia.
Qed.

Lemma Day_MakeDate day time :
  0 <= time < msPerDay -> Day (MakeDate day time) = day.
Proof. unfold Day, MakeDate, msPerDay. intros H. zdiv. Qed.

Section Civil.
Variables y mo d h mi sec : Z.
Hypothesis Hmo : 1 <= mo <= 12.
Hypothesis Hd : 1 <= d <= DaysInMonth y mo.
Hypothesis Hh : 0 <= h <= 23.
Hypothesis Hmi : 0 <= mi <= 59.
Hypothesis Hsec : 0 <= sec <= 59.

Let tv := MakeDate (MakeDay y (mo - 1) d) (MakeTime h mi sec 0).

Lemma civil_Day : Day tv = DayFromYear y + DaysBeforeMonth y (mo - 1) + d - 1.
Proof.
  unfold tv. rewrite Day_MakeDate.
  - unfold MakeDay. replace ((mo - 1) / 12) with 0 by zdiv.
    replace ((mo - 1) mod 12) with (mo - 1) by zdiv.
    now rewrite Z.add_0_r.
  - unfold MakeTime, msPerHour, msPerMinute, msPerSecond, msPerDay. lia.
Qed.

Lemma civil_Year : YearFromTime tv = y.
Proof.
  unfold YearFromTime. rewrite civil_Day.
  pose proof (DaysBeforeMonth_within y mo d Hmo Hd).
  apply YearFromDay_unique. rewrite DayFromYear_succ. lia.
Qed.

Lemma civil_DayWithinYear :
  DayWithinYear tv = DaysBeforeMonth y (mo - 1) + d - 1.
Proof. unfold DayWithinYear. rewrite civil_Year, civil_Day. lia. Qed.

Lemma civil_Month_Date : MonthFromTime tv = mo - 1 /\ DateFromTime tv = d.
Proof.
  unfold DateFromTime, MonthFromTime, InLeapYear.
  rewrite civil_DayWithinYear, civil_Year.
  assert (mo = 1 \/ mo = 2 \/ mo = 3 \/ mo = 4 \/ mo = 5 \/ mo = 6 \/ mo = 7
          \/ mo = 8 \/ mo = 9 \/ mo = 10 \/ mo = 11 \/ mo = 12)
    as [E|[E|[E|[E|[E|[E|[E|[E|[E|[E|[E|E]]]]]]]]]]] by lia;
    rewrite E in *; clear E;
    unfold DaysBeforeMonth, DaysInMonth in *;
    destruct (DaysInYear_cases y) as [E|E]; rewrite E in *; month_cases;
    split_ltb; month_cases; lia.
Qed.

Lemma civil_time :
  HourFromTime tv = h /\ MinFromTime tv = mi /\ SecFromTime tv = sec
  /\ msFromTime tv = 0.
Proof.
  unfold HourFromTime, MinFromTime, SecFromTime, msFromTime, tv, MakeDate,
    MakeTime, msPerHour, msPerMinute, msPerSecond, msPerDay.
  repeat split; zdiv.
Qed.
End Civil.
Lemma replace_absent r rep s :
  occurs "." s = false -> replace (String "." r) rep s = s.
Proof.
  induction s as [|c s IH]; intros H; [reflexivity|].
  cbn in H. apply orb_false_elim in H as [Hc Hs].
  cbn [replace strip_prefix]. rewrite Ascii.eqb_sym, Hc. now rewrite IH.
Qed.

Lemma replace_skip r rep p q :
  occurs "." p = false ->
  replace (String "." r) rep (p ++ q) = p ++ replace (String "." r) rep q.
Proof.
  induction p as [|c p IH]; intros H; [reflexivity|].
  cbn in H. apply orb_false_elim in H as [Hc Hp].
  cbn [append replace strip_prefix]. rewrite Ascii.eqb_sym, Hc. now rewrite IH.
Qed.

Lemma replace_dot_no_match r rep rest :
  strip_prefix r rest = None ->
  replace (String "." r) rep (String "." rest)
  = String "." (replace (String "." r) rep rest).
Proof.
  intros H. cbn [replace strip_prefix]. now rewrite Ascii.eqb_refl, H.
Qed.

Lemma digit_char_zero d :
  0 <= d <= 9 -> ("0" =? digit_char d)%char = true -> d = 0.
Proof.
  intros H.
  assert (d = 0 \/ d = 1 \/ d = 2 \/ d = 3 \/ d = 4 \/ d = 5 \/ d = 6 \/
          d = 7 \/ d = 8 \/ d = 9) as [E|[E|[E|[E|[E|[E|[E|[E|[E|E]]]]]]]]]
    by lia; subst d; cbn; congruence.
Qed.

Lemma strip_zero_fraction ms :
  1 <= ms <= 999 -> strip_prefix "000Z" (pad 3 ms ++ "Z") = None.
Proof.
  intros H. cbn [pad append strip_prefix].
  destruct ("0" =? digit_char (ms / 10 / 10 mod 10))%char eqn:E2; [|reflexivity].
  destruct ("0" =? digit_char (ms / 10 mod 10))%char eqn:E1; [|reflexivity].
  destruct ("0" =? digit_char (ms mod 10))%char eqn:E0; [|reflexivity].
  apply digit_char_zero in E2; [|zdiv].
  apply digit_char_zero in E1; [|zdiv].
  apply digit_char_zero in E0; [|zdiv].
  exfalso. zdiv.
Qed.

Lemma toISOString_fraction tv :
  msFromTime tv <> 0 ->
  replace ".000Z" "Z" (toISOString tv) = toISOString tv.
Proof.
  intros Hms. unfold toISOString.
  pose proof (time_fields_range tv) as (_ & _ & _ & Hr).
  rewrite replace_skip by apply occurs_dot_date_time.
  f_equal. change ("." ++ pad 3 (msFromTime tv) ++ "Z")
    with (String "." (pad 3 (msFromTime tv) ++ "Z")).
  rewrite replace_dot_no_match by (apply strip_zero_fraction; lia).
  f_equal. apply replace_absent.
  rewrite occurs_append, occurs_dot_pad. reflexivity.
Qed.

Section MoreNormalizer.
Context {P : Platform}.


(** X13. When the time value [Date] reads has a fraction of a second,
    [toUTCISOString] returns it with the fraction, point and three
    digits before the [Z]: only a fraction of zero is taken out. *)
Theorem fraction_of_a_second_is_kept s tv :
  Date_parse s = Some tv -> msFromTime tv <> 0 ->
  toUTCISOString s = inr (toISOString tv)
  /\ toISOString tv = date_time_string tv ++ "." ++ pad 3 (msFromTime tv) ++ "Z"
  /\ occurs "." (toISOString tv) = true.
Proof.
  intros Hp Hms. unfold toUTCISOString. rewrite Hp, toISOString_fraction by exact Hms.
  repeat split. unfold toISOString. rewrite occurs_append. cbn. apply orb_true_r.
Qed.

(** X12. What [toUTCISOString] returns for a time value of whole
    seconds is a fixed point of it: given its own output, it returns it
    unchanged. *)
Theorem normalized_is_fixed_point s tv :
  Date_parse s = Some tv ->
  Z.abs tv <= 8640000000000000 -> msFromTime tv = 0 ->
  exists utc,
    toUTCISOString s = inr utc /\ toUTCISOString utc = inr utc.
Proof.
  intros Hp Hclip Hms. exists (date_time_string tv ++ "Z").
  unfold toUTCISOString at 1. rewrite Hp, toISOString_whole_seconds by exact Hms.
  split; [reflexivity|].
  unfold toUTCISOString.
  rewrite Date_parse_date_time_string by assumption.
  now rewrite toISOString_whole_seconds.
Qed.

Lemma read_date_time_Z y mo d h mi sec :
  0 <= y <= 9999 -> 0 <= mo <= 99 -> 0 <= d <= 99 ->
  0 <= h <= 99 -> 0 <= mi <= 99 -> 0 <= sec <= 99 ->
  read_date_time (local_date_time y mo d h mi sec ++ "Z")
  = Some {| field_year := y; field_month := mo; field_day := d;
            field_hour := h; field_minute := mi; field_second := sec;
            field_utc := true |}.
Proof.
  intros. unfold local_date_time, read_date_time.
  repeat rewrite append_assoc.
  repeat read_field. reflexivity.
Qed.

Lemma civil_in_range y mo d h mi sec :
  0 <= y <= 9999 -> 1 <= mo <= 12 -> 1 <= d <= DaysInMonth y mo ->
  0 <= h <= 23 -> 0 <= mi <= 59 -> 0 <= sec <= 59 ->
  Z.abs (MakeDate (MakeDay y (mo - 1) d) (MakeTime h mi sec 0))
  <= 8640000000000000.
Proof.
  intros Hy Hmo Hd Hh Hmi Hsec.
  pose proof (DaysBeforeMonth_within y mo d Hmo Hd).
  pose proof (DaysInYear_cases y).
  unfold MakeDate, MakeDay, MakeTime, msPerDay, msPerHour, msPerMinute,
    msPerSecond.
  replace ((mo - 1) / 12) with 0 by zdiv.
  replace ((mo - 1) mod 12) with (mo - 1) by zdiv.
  rewrite Z.add_0_r. unfold DayFromYear. zdiv.
Qed.

(** X11. A timestamp that is already written in UTC to the second,
    [YYYY-MM-DDTHH:mm:ssZ] with a date of the calendar and a time before
    24:00, passes through [toUTCISOString] unchanged, in every zone. *)
Theorem utc_timestamp_passes_unchanged y mo d h mi sec :
  0 <= y <= 9999 -> 1 <= mo <= 12 -> 1 <= d <= DaysInMonth y mo ->
  0 <= h <= 23 -> 0 <= mi <= 59 -> 0 <= sec <= 59 ->
  toUTCISOString (local_date_time y mo d h mi sec ++ "Z")
  = inr (local_date_time y mo d h mi sec ++ "Z").
Proof.
  intros Hy Hmo Hd Hh Hmi Hsec.
  pose proof (DaysInMonth_le_31 y mo).
  set (tv := MakeDate (MakeDay y (mo - 1) d) (MakeTime h mi sec 0)).
  assert (Hparse : Date_parse (local_date_time y mo d h mi sec ++ "Z") = Some tv).
  { unfold Date_parse. rewrite read_date_time_Z by lia.
    unfold time_value_of_fields.
    assert (Hb : fields_in_bounds
                   {| field_year := y; field_month := mo; field_day := d;
                      field_hour := h; field_minute := mi; field_second := sec;
                      field_utc := true |} = true).
    { unfold fields_in_bounds.
      cbn [field_year field_month field_day field_hour field_minute
           field_second].
      repeat (apply andb_true_iff; split); try (apply Z.leb_le; lia).
      - destruct Date_day_overflow; apply Z.leb_le; lia.
      - destruct (Z.eqb_spec h 24); [lia | reflexivity]. }
    rewrite Hb.
    cbn [field_year field_month field_day field_hour field_minute field_second
         field_utc].
    fold tv. unfold TimeClip.
    pose proof (civil_in_range y mo d h mi sec Hy Hmo Hd Hh Hmi Hsec).
    fold tv in H0.
    destruct (Z.ltb_spec 8640000000000000 (Z.abs tv)); [lia | reflexivity]. }
  destruct (civil_time y mo d h mi sec Hh Hmi Hsec) as (Eh & Em & Es & Ems).
  destruct (civil_Month_Date y mo d h mi sec Hmo Hd Hh Hmi Hsec) as [Emo Ed].
  pose proof (civil_Year y mo d h mi sec Hmo Hd Hh Hmi Hsec) as Ey.
  fold tv in Eh, Em, Es, Ems, Emo, Ed, Ey.
  unfold toUTCISOString. rewrite Hparse, toISOString_whole_seconds by exact Ems.
  unfold date_time_string, local_date_time, year_string.
  rewrite Ey, Emo, Ed, Eh, Em, Es.
  replace (mo - 1 + 1) with mo by lia.
  destruct (Z.leb_spec 0 y); [|lia]. destruct (Z.leb_spec y 9999); [|lia].
  reflexivity.
Qed.

End MoreNormalizer.

Section InitialWindow.
Context {P : Platform}.
Variable LocalTZA_of_UTC : Z -> Z.

Lemma fields_of_local_time_in_bounds lt utc :
  fields_in_bounds
    {| field_year := YearFromTime lt; field_month := MonthFromTime lt + 1;
       field_day := DateFromTime lt; field_hour := HourFromTime lt;
       field_minute := MinFromTime lt; field_second := SecFromTime lt;
       field_utc := utc |} = true.
Proof.
  pose proof (fields_of_time_in_bounds lt) as H.
  unfold fields_in_bounds in *. exact H.
Qed.

Lemma format_date_time_parses tv c :
  Z.abs tv <= 8640000000000000 ->
  LocalTZA_of_UTC tv = c -> c mod 1000 = 0 ->
  LocalTZA (tv + c - (tv + c) mod 1000) = c ->
  1 <= YearFromTime (tv + c) <= 9999 ->
  Date_parse (format_date_time LocalTZA_of_UTC tv) = Some (tv - tv mod 1000).
Proof.
  intros Hclip Hc Hwhole Hback Hyear.
  unfold format_date_time, LocalTime. rewrite Hc.
  set (lt := tv + c) in *.
  pose proof (MonthFromTime_range lt).
  pose proof (DateFromTime_range lt).
  pose proof (DaysInMonth_le_31 (YearFromTime lt) (MonthFromTime lt + 1)).
  pose proof (time_fields_range lt) as (? & ? & ? & ?).
  assert (Ey : format_yyyy (YearFromTime lt) = pad 4 (YearFromTime lt)).
  { unfold format_yyyy.
    destruct (Z.ltb_spec 0 (YearFromTime lt)); [|lia].
    destruct (Z.ltb_spec (YearFromTime lt) 10000); [reflexivity|lia]. }
  rewrite Ey.
  change (pad 4 (YearFromTime lt) ++ "-" ++ pad 2 (MonthFromTime lt + 1)
          ++ "-" ++ pad 2 (DateFromTime lt) ++ "T" ++ pad 2 (HourFromTime lt)
          ++ ":" ++ pad 2 (MinFromTime lt) ++ ":" ++ pad 2 (SecFromTime lt))
    with (local_date_time (YearFromTime lt) (MonthFromTime lt + 1)
            (DateFromTime lt) (HourFromTime lt) (MinFromTime lt)
            (SecFromTime lt)).
  unfold Date_parse. rewrite read_date_time_local by lia.
  unfold time_value_of_fields. rewrite fields_of_local_time_in_bounds.
  cbn [field_year field_month field_day field_hour field_minute field_second
       field_utc].
  replace (MonthFromTime lt + 1 - 1) with (MonthFromTime lt) by lia.
  rewrite MakeDay_FromTime.
  assert (Et : MakeTime (HourFromTime lt) (MinFromTime lt) (SecFromTime lt) 0
               = TimeWithinDay lt - msFromTime lt).
  { rewrite <- MakeTime_FromTime. unfold MakeTime. lia. }
  rewrite Et.
  assert (El : MakeDate (Day lt) (TimeWithinDay lt - msFromTime lt)
               = lt - lt mod 1000).
  { pose proof (MakeDate_Day lt) as E. unfold MakeDate in *.
    unfold msFromTime, msPerSecond. lia. }
  rewrite El. unfold UTC. rewrite Hback.
  replace (lt - lt mod 1000 - c) with (tv - tv mod 1000) by (subst lt; zdiv).
  unfold TimeClip.
  destruct (Z.ltb_spec 8640000000000000 (Z.abs (tv - tv mod 1000)));
    [exfalso; zdiv | reflexivity].
Qed.

(** X14. The initial values of the two time inputs, sent as they are,
    ask for the six hours up to now, to the second: where the zone's
    offsets are whole seconds and the two local times are not repeated
    or skipped by a change of offset, the end is read back as now without
    its milliseconds and the start as six hours before it. *)
Theorem initial_window_is_six_hours now c_start c_end :
  - 8640000000000000 + 6 * msPerHour <= now <= 8640000000000000 ->
  LocalTZA_of_UTC (now - 6 * msPerHour) = c_start ->
  LocalTZA_of_UTC now = c_end ->
  c_start mod 1000 = 0 -> c_end mod 1000 = 0 ->
  LocalTZA (now - 6 * msPerHour + c_start
            - (now - 6 * msPerHour + c_start) mod 1000) = c_start ->
  LocalTZA (now + c_end - (now + c_end) mod 1000) = c_end ->
  1 <= YearFromTime (now - 6 * msPerHour + c_start) <= 9999 ->
  1 <= YearFromTime (now + c_end) <= 9999 ->
  exists startTime tv_start tv_end,
    initial_startTime LocalTZA_of_UTC now = Some startTime
    /\ Date_parse startTime = Some tv_start
    /\ Date_parse (initial_endTime LocalTZA_of_UTC now) = Some tv_end
    /\ tv_end = now - now mod 1000
    /\ tv_end - tv_start = 6 * msPerHour.
Proof.
  intros Hnow Hcs Hce Hws Hwe Hbs Hbe Hys Hye.
  unfold msPerHour in *.
  exists (format_date_time LocalTZA_of_UTC (now - 6 * 3600000)).
  exists (now - 6 * 3600000 - (now - 6 * 3600000) mod 1000).
  exists (now - now mod 1000).
  split.
  { unfold initial_startTime, subHours, TimeClip, msPerHour.
    destruct (Z.ltb_spec 8640000000000000 (Z.abs (now - 6 * 3600000)));
      [lia | reflexivity]. }
  split; [apply (format_date_time_parses _ c_start); try assumption; lia|].
  split; [apply (format_date_time_parses _ c_end); try assumption; lia|].
  split; [reflexivity | zdiv].
Qed.
End InitialWindow.

Lemma utc_timestamp_passes_unchanged_witness :
  @toUTCISOString tokyo "2024-02-29T23:59:59Z" = inr "2024-02-29T23:59:59Z".
Proof.
  apply (@utc_timestamp_passes_unchanged tokyo 2024 2 29 23 59 59);
    cbn; lia.
Defined.

Lemma normalized_is_fixed_point_witness :
  exists utc,
    @toUTCISOString tokyo "2026-01-01T12:34:56" = inr utc
    /\ @toUTCISOString tokyo utc = inr utc.
Proof.
  apply (@normalized_is_fixed_point tokyo "2026-01-01T12:34:56" 1767238496000);
    [reflexivity | cbn; lia | reflexivity].
Defined.

Lemma fraction_of_a_second_is_kept_witness :
  @toUTCISOString tokyo_with_fractions "2026-01-01T12:34:56.500"
  = inr (toISOString 1767238496500)
  /\ toISOString 1767238496500
     = date_time_string 1767238496500 ++ "."
       ++ pad 3 (msFromTime 1767238496500) ++ "Z"
  /\ occurs "." (toISOString 1767238496500) = true.
Proof.
  apply (@fraction_of_a_second_is_kept tokyo_with_fractions
           "2026-01-01T12:34:56.500" 1767238496500);
    [reflexivity | discriminate].
Defined.

Lemma initial_window_is_six_hours_witness :
  exists startTime tv_start tv_end,
    initial_startTime always_9h 1767238496789 = Some startTime
    /\ @Date_parse tokyo startTime = Some tv_start
    /\ @Date_parse tokyo (initial_endTime always_9h 1767238496789)
       = Some tv_end
    /\ tv_end = 1767238496789 - 1767238496789 mod 1000
    /\ tv_end - tv_start = 6 * msPerHour.
Proof.
  apply (@initial_window_is_six_hours tokyo always_9h 1767238496789
           32400000 32400000);
    try reflexivity; unfold msPerHour; try lia; vm_compute; split; congruence.
Defined.

(** ** The statistics, whatever the series *)

Ltac cmp_cases :=
  repeat match goal with
         | |- context [Z.compare ?a ?b] => destruct (Z.compare_spec a b)
         | H : context [Z.compare ?a ?b] |- _ => destruct (Z.compare_spec a b)
         | |- context [Pos.compare_cont Eq ?a ?b] =>
             change (Pos.compare_cont Eq a b) with (Pos.compare a b);
             destruct (Pos.compare_spec a b)
         | H : context [Pos.compare_cont Eq ?a ?b] |- _ =>
             change (Pos.compare_cont Eq a b) with (Pos.compare a b) in H;
             destruct (Pos.compare_spec a b)
         end.

Lemma SFleb_trans a b c :
  SFleb a b = true -> SFleb b c = true -> SFleb a c = true.
Proof.
  unfold SFleb, SFcompare.
  destruct a as [sa|sa| |sa ma ea], b as [sb|sb| |sb mb eb],
    c as [sc|sc| |sc mc ec];
    try destruct sa; try destruct sb; try destruct sc;
    cbn; try discriminate; try reflexivity;
    cmp_cases; cbn; intros; subst; try discriminate; try reflexivity; lia.
Qed.

Lemma SFltb_SFleb a b : SFltb a b = true -> SFleb a b = true.
Proof. unfold SFltb, SFleb. destruct (SFcompare a b) as [[]|]; congruence. Qed.

Lemma SFleb_total a b :
  a <> S754_nan -> b <> S754_nan -> SFltb a b = false -> SFleb b a = true.
Proof.
  unfold SFltb, SFleb, SFcompare.
  destruct a as [sa|sa| |sa ma ea], b as [sb|sb| |sb mb eb];
    try destruct sa; try destruct sb;
    cbn; try congruence;
    cmp_cases; cbn; intros; subst; try congruence; lia.
Qed.

Lemma SFleb_refl a : a <> S754_nan -> SFleb a a = true.
Proof.
  unfold SFleb, SFcompare.
  destruct a as [sa|sa| |sa ma ea]; try destruct sa; cbn; try congruence;
    rewrite Z.compare_refl;
    change (Pos.compare_cont Eq ma ma) with (Pos.compare ma ma);
    rewrite Pos.compare_refl; reflexivity.
Qed.

Lemma SFleb_antisym a b :
  SFleb a b = true -> SFleb b a = true -> SFeqb a b = true.
Proof.
  unfold SFeqb, SFleb, SFcompare.
  destruct a as [sa|sa| |sa ma ea], b as [sb|sb| |sb mb eb];
    try destruct sa; try destruct sb;
    cbn; try congruence;
    cmp_cases; cbn; intros; subst; try congruence; lia.
Qed.

Lemma is_nan_Prim2SF x : is_nan x = false <-> Prim2SF x <> S754_nan.
Proof.
  unfold is_nan. rewrite eqb_spec. unfold SFeqb, SFcompare.
  destruct (Prim2SF x) as [s|s| |s m e]; try destruct s; cbn;
    try (split; congruence);
    rewrite Z.compare_refl;
    change (Pos.compare_cont Eq m m) with (Pos.compare m m);
    rewrite Pos.compare_refl; cbn; split; congruence.
Qed.

Lemma is_zero_Prim2SF x : is_zero x = true -> exists s, Prim2SF x = S754_zero s.
Proof.
  unfold is_zero. rewrite eqb_spec. unfold SFeqb, SFcompare.
  change (Prim2SF zero) with (S754_zero false).
  destruct (Prim2SF x) as [s|s| |s m e]; try destruct s; cbn;
    try discriminate; eauto.
Qed.

Lemma Math_min_from_bounds coerced : forall lowest,
  is_nan lowest = false ->
  Forall (fun x => is_nan x = false) coerced ->
  is_nan (Math_min_from lowest coerced) = false
  /\ below (Math_min_from lowest coerced) lowest
  /\ Forall (below (Math_min_from lowest coerced)) coerced
  /\ (below lowest (Math_min_from lowest coerced)
      \/ Exists (fun x => below x (Math_min_from lowest coerced)) coerced).
Proof.
  induction coerced as [|number rest IH]; intros lowest Hl Hall.
  - cbn. apply is_nan_Prim2SF in Hl as Hl'.
    repeat split; auto; try (left); apply SFleb_refl; exact Hl'.
  - inversion Hall as [|? ? Hn Hrest]; subst. cbn [Math_min_from].
    rewrite Hn.
    set (lowest1 := if is_zero number && get_sign number
                       && is_zero lowest && negb (get_sign lowest)
                    then neg_zero else lowest).
    set (lowest2 := if (number <? lowest1)%float then number else lowest1).
    assert (H1 : is_nan lowest1 = false /\ below lowest1 lowest
                 /\ below lowest lowest1).
    { subst lowest1.
      destruct (is_zero number && get_sign number
                && is_zero lowest && negb (get_sign lowest)) eqn:E.
      - apply andb_prop in E as [E _]. apply andb_prop in E as [_ E].
        apply is_zero_Prim2SF in E as [s E].
        unfold below. rewrite E. change (Prim2SF neg_zero) with (S754_zero true).
        repeat split; reflexivity.
      - apply is_nan_Prim2SF in Hl as Hl'.
        repeat split; auto; apply SFleb_refl; exact Hl'. }
    destruct H1 as (Hn1 & H1le & H1ge).
    assert (H2 : is_nan lowest2 = false /\ below lowest2 number
                 /\ below lowest2 lowest1
                 /\ (below number lowest2 \/ below lowest1 lowest2)).
    { apply is_nan_Prim2SF in Hn as Hn'. apply is_nan_Prim2SF in Hn1 as Hn1'.
      subst lowest2. destruct (number <? lowest1)%float eqn:E;
        rewrite ltb_spec in E.
      - repeat split; auto.
        + apply SFleb_refl; exact Hn'.
        + apply SFltb_SFleb; exact E.
        + left. apply SFleb_refl; exact Hn'.
      - repeat split; auto.
        + apply SFleb_total; assumption.
        + apply SFleb_refl; exact Hn1'.
        + right. apply SFleb_refl; exact Hn1'. }
    destruct H2 as (Hn2 & H2n & H2l & H2att).
    destruct (IH lowest2 Hn2 Hrest) as (Hr & Hle & Hall' & Hatt).
    clearbody lowest1 lowest2.
    set (res := Math_min_from lowest2 rest) in *. clearbody res.
    unfold below in *.
    repeat split.
    + exact Hr.
    + eapply SFleb_trans; [exact Hle|]. eapply SFleb_trans; eassumption.
    + constructor; [eapply SFleb_trans; eassumption | exact Hall'].
    + destruct Hatt as [Hatt|Hatt].
      * destruct H2att as [H|H].
        -- right. apply Exists_cons_hd. eapply SFleb_trans; eassumption.
        -- left. eapply SFleb_trans; [exact H1ge|].
           eapply SFleb_trans; eassumption.
      * right. apply Exists_cons_tl. exact Hatt.
Qed.

Lemma Math_max_from_bounds coerced : forall highest,
  is_nan highest = false ->
  Forall (fun x => is_nan x = false) coerced ->
  is_nan (Math_max_from highest coerced) = false
  /\ below highest (Math_max_from highest coerced)
  /\ Forall (fun x => below x (Math_max_from highest coerced)) coerced
  /\ (below (Math_max_from highest coerced) highest
      \/ Exists (below (Math_max_from highest coerced)) coerced).
Proof.
  induction coerced as [|number rest IH]; intros highest Hl Hall.
  - cbn. apply is_nan_Prim2SF in Hl as Hl'.
    repeat split; auto; try (left); apply SFleb_refl; exact Hl'.
  - inversion Hall as [|? ? Hn Hrest]; subst. cbn [Math_max_from].
    rewrite Hn.
    set (highest1 := if is_zero number && negb (get_sign number)
                        && is_zero highest && get_sign highest
                     then zero else highest).
    set (highest2 := if (highest1 <? number)%float then number else highest1).
    assert (H1 : is_nan highest1 = false /\ below highest1 highest
                 /\ below highest highest1).
    { subst highest1.
      destruct (is_zero number && negb (get_sign number)
                && is_zero highest && get_sign highest) eqn:E.
      - apply andb_prop in E as [E _]. apply andb_prop in E as [_ E].
        apply is_zero_Prim2SF in E as [s E].
        unfold below. rewrite E. change (Prim2SF zero) with (S754_zero false).
        repeat split; reflexivity.
      - apply is_nan_Prim2SF in Hl as Hl'.
        repeat split; auto; apply SFleb_refl; exact Hl'. }
    destruct H1 as (Hn1 & H1le & H1ge).
    assert (H2 : is_nan highest2 = false /\ below number highest2
                 /\ below highest1 highest2
                 /\ (below highest2 number \/ below highest2 highest1)).
    { apply is_nan_Prim2SF in Hn as Hn'. apply is_nan_Prim2SF in Hn1 as Hn1'.
      subst highest2. destruct (highest1 <? number)%float eqn:E;
        rewrite ltb_spec in E.
      - repeat split; auto.
        + apply SFleb_refl; exact Hn'.
        + apply SFltb_SFleb; exact E.
        + left. apply SFleb_refl; exact Hn'.
      - repeat split; auto.
        + apply SFleb_total; assumption.
        + apply SFleb_refl; exact Hn1'.
        + right. apply SFleb_refl; exact Hn1'. }
    destruct H2 as (Hn2 & H2n & H2l & H2att).
    destruct (IH highest2 Hn2 Hrest) as (Hr & Hle & Hall' & Hatt).
    clearbody highest1 highest2.
    set (res := Math_max_from highest2 rest) in *. clearbody res.
    unfold below in *.
    repeat split.
    + exact Hr.
    + eapply SFleb_trans; [exact H1ge|]. eapply SFleb_trans; eassumption.
    + constructor; [eapply SFleb_trans; eassumption | exact Hall'].
    + destruct Hatt as [Hatt|Hatt].
      * destruct H2att as [H|H].
        -- right. apply Exists_cons_hd. eapply SFleb_trans; eassumption.
        -- left. eapply SFleb_trans; [|exact H1le].
           eapply SFleb_trans; eassumption.
      * right. apply Exists_cons_tl. exact Hatt.
Qed.

Lemma SFleb_infinity a : a <> S754_nan -> SFleb a (S754_infinity false) = true.
Proof. destruct a as [[]|[]| |[] m e]; cbn; congruence. Qed.

Lemma SFleb_neg_infinity a :
  a <> S754_nan -> SFleb (S754_infinity true) a = true.
Proof. destruct a as [[]|[]| |[] m e]; cbn; congruence. Qed.

Lemma below_leb x y : below x y -> (x <=? y)%float = true.
Proof. unfold below. rewrite leb_spec. auto. Qed.

Lemma below_eqb x y : below x y -> below y x -> (x =? y)%float = true.
Proof. unfold below. rewrite eqb_spec. apply SFleb_antisym. Qed.

Lemma extremes_of_a_series points :
  points <> [] ->
  Forall (fun p => is_nan (alt_km p) = false) points ->
  Forall (fun p => (minAltitude points <=? alt_km p)%float = true
                   /\ (alt_km p <=? maxAltitude points)%float = true) points
  /\ Exists (fun p => (alt_km p =? minAltitude points)%float = true) points
  /\ Exists (fun p => (alt_km p =? maxAltitude points)%float = true) points
  /\ (minAltitude points <=? maxAltitude points)%float = true.
Proof.
  intros Hne Hall. unfold minAltitude, maxAltitude, Math_min, Math_max.
  assert (Hall' : Forall (fun x => is_nan x = false) (map alt_km points))
    by (apply Forall_map; exact Hall).
  destruct (Math_min_from_bounds (map alt_km points) infinity eq_refl Hall')
    as (_ & _ & Hmin & Hminatt).
  destruct (Math_max_from_bounds (map alt_km points) neg_infinity eq_refl Hall')
    as (_ & _ & Hmax & Hmaxatt).
  set (mn := Math_min_from infinity (map alt_km points)) in *.
  set (mx := Math_max_from neg_infinity (map alt_km points)) in *.
  clearbody mn mx.
  apply (proj1 (Forall_map alt_km (below mn) points)) in Hmin.
  apply (proj1 (Forall_map alt_km (fun x => below x mx) points)) in Hmax.
  assert (Hmin_att : Exists (fun p => below (alt_km p) mn) points).
  { destruct Hminatt as [H|H];
      [|apply (proj1 (Exists_map alt_km (fun x => below x mn) points)) in H;
        exact H].
    destruct points as [|p rest]; [congruence|]. apply Exists_cons_hd.
    inversion Hall as [|? ? Hp _]; subst. apply is_nan_Prim2SF in Hp.
    unfold below in *. eapply SFleb_trans; [|exact H].
    change (Prim2SF infinity) with (S754_infinity false).
    apply SFleb_infinity; exact Hp. }
  assert (Hmax_att : Exists (fun p => below mx (alt_km p)) points).
  { destruct Hmaxatt as [H|H];
      [|apply (proj1 (Exists_map alt_km (below mx) points)) in H; exact H].
    destruct points as [|p rest]; [congruence|]. apply Exists_cons_hd.
    inversion Hall as [|? ? Hp _]; subst. apply is_nan_Prim2SF in Hp.
    unfold below in *. eapply SFleb_trans; [exact H|].
    change (Prim2SF neg_infinity) with (S754_infinity true).
    apply SFleb_neg_infinity; exact Hp. }
  rewrite Forall_forall in Hmin, Hmax.
  repeat split.
  - apply Forall_forall. intros p Hp.
    split; apply below_leb; [apply Hmin | apply Hmax]; exact Hp.
  - apply Exists_exists in Hmin_att as (p & Hp & Hle).
    apply Exists_exists. exists p. split; [exact Hp|].
    apply below_eqb; [exact Hle | apply Hmin; exact Hp].
  - apply Exists_exists in Hmax_att as (p & Hp & Hle).
    apply Exists_exists. exists p. split; [exact Hp|].
    apply below_eqb; [apply Hmax; exact Hp | exact Hle].
  - destruct points as [|p rest]; [congruence|].
    apply below_leb. unfold below.
    eapply SFleb_trans; [apply Hmin | apply Hmax]; left; reflexivity.
Qed.

Section Spreads.
Context {P : Platform}.

(** X15. Over a series that is not empty, holds no NaN and is not
    longer than the argument list of a call can be, the two spreads of
    the card are taken, the minimum is at most every altitude of the
    series, the maximum is at least every one, each of the two is the
    altitude of one of the samples, and the minimum is at most the
    maximum. *)
Theorem extremes_bound_the_series points :
  points <> [] ->
  Forall (fun p => is_nan (alt_km p) = false) points ->
  Z.of_nat (List.length points) <= arguments_limit ->
  exists mn mx,
    spread Math_min (map alt_km points) = Some mn
    /\ spread Math_max (map alt_km points) = Some mx
    /\ renderedStatistics points = Some (statisticsCard points)
    /\ Forall (fun p => (mn <=? alt_km p)%float = true
                        /\ (alt_km p <=? mx)%float = true) points
    /\ Exists (fun p => (alt_km p =? mn)%float = true) points
    /\ Exists (fun p => (alt_km p =? mx)%float = true) points
    /\ (mn <=? mx)%float = true.
Proof.
  intros Hne Hall Hlen.
  exists (minAltitude points), (maxAltitude points).
  unfold renderedStatistics, spread. rewrite length_map.
  destruct (Z.leb_spec (Z.of_nat (List.length points)) arguments_limit); [|lia].
  repeat split; try reflexivity; apply (extremes_of_a_series points Hne Hall).
Qed.

(** A series longer than that makes the first spread throw, and the
    render with it. *)
Lemma long_series_throws points :
  arguments_limit < Z.of_nat (List.length points) ->
  spread Math_min (map alt_km points) = None
  /\ spread Math_max (map alt_km points) = None
  /\ renderedStatistics points = None.
Proof.
  intros Hlen. unfold renderedStatistics, spread. rewrite length_map.
  destruct (Z.leb_spec (Z.of_nat (List.length points)) arguments_limit); [lia|].
  repeat split.
Qed.

End Spreads.

Lemma extremes_bound_the_series_witness :
  let points := [ {| t := "2026-01-01T00:00:00Z"; alt_km := 408.125 |};
                  {| t := "2026-01-01T00:01:00Z"; alt_km := 409.25 |};
                  {| t := "2026-01-01T00:02:00Z"; alt_km := 407.875 |};
                  {| t := "2026-01-01T00:03:00Z"; alt_km := 410 |} ] in
  exists mn mx,
    @spread tokyo Math_min (map alt_km points) = Some mn
    /\ @spread tokyo Math_max (map alt_km points) = Some mx
    /\ @renderedStatistics tokyo points = Some (@statisticsCard tokyo points)
    /\ Forall (fun p => (mn <=? alt_km p)%float = true
                        /\ (alt_km p <=? mx)%float = true) points
    /\ Exists (fun p => (alt_km p =? mn)%float = true) points
    /\ Exists (fun p => (alt_km p =? mx)%float = true) points
    /\ (mn <=? mx)%float = true.
Proof.
  intro points. apply (@extremes_bound_the_series tokyo points).
  - discriminate.
  - repeat constructor.
  - vm_compute. discriminate.
Defined.

(** ** What a cell of the card shows *)

Lemma N_to_uint_nonnil k : N.to_uint k <> Decimal.Nil.
Proof.
  destruct k as [|p]; cbn; [discriminate|].
  apply DecimalPos.Unsigned.to_uint_nonnil.
Qed.

Lemma digits_value_decimal n : 0 <= n -> digits_value (decimal n) = Some n.
Proof.
  intros H. unfold digits_value, decimal.
  rewrite NilZero.usu by apply N_to_uint_nonnil.
  cbn [option_map]. rewrite DecimalN.Unsigned.of_to. f_equal. lia.
Qed.

Lemma digits_value_leading_zero s n :
  digits_value s = Some n -> digits_value (String "0" s) = Some n.
Proof.
  unfold digits_value. destruct s as [|a s]; [discriminate|].
  cbn [NilZero.uint_of_string].
  intros H. cbn [NilEmpty.uint_of_string] in *.
  destruct (uint_of_char a (NilEmpty.uint_of_string s)) as [d|];
    [|discriminate].
  cbn in *. exact H.
Qed.

Lemma pad_zero_succ j : pad (S j) 0 = String "0" (pad j 0).
Proof.
  induction j as [|j IH]; [reflexivity|].
  change (pad (S (S j)) 0) with (pad (S j) 0 ++ "0").
  rewrite IH at 1. cbn [append]. f_equal.
Qed.

Lemma digits_value_pad_zero j : forall s n,
  digits_value s = Some n -> digits_value (pad j 0 ++ s) = Some n.
Proof.
  induction j as [|j IH]; intros s n H; [exact H|].
  rewrite pad_zero_succ. cbn [append].
  apply digits_value_leading_zero, IH, H.
Qed.

Lemma length_append a b :
  String.length (a ++ b) = (String.length a + String.length b)%nat.
Proof. induction a as [|x a IH]; cbn; [reflexivity | now rewrite IH]. Qed.

Lemma length_pad j : forall v, String.length (pad j v) = j.
Proof.
  induction j as [|j IH]; intros v; cbn [pad]; [reflexivity|].
  rewrite length_append, IH. cbn. lia.
Qed.

Lemma substring_split s : forall i,
  (i <= String.length s)%nat ->
  substring 0 i s ++ substring i (String.length s - i) s = s
  /\ String.length (substring 0 i s) = i
  /\ String.length (substring i (String.length s - i) s)
     = (String.length s - i)%nat.
Proof.
  induction s as [|c s IH]; intros i Hi.
  - cbn in Hi. assert (i = 0%nat) by lia. subst. cbn. auto.
  - destruct i as [|i].
    + cbn [substring append String.length Nat.sub].
      destruct (IH 0%nat ltac:(lia)) as (E & _ & L).
      rewrite Nat.sub_0_r in *.
      assert (E0 : substring 0 0 s = "") by (destruct s; reflexivity).
      rewrite E0 in E. cbn [append] in E. rewrite E. auto.
    + cbn [String.length] in Hi.
      destruct (IH i ltac:(lia)) as (E & L1 & L2).
      cbn [substring append String.length Nat.sub].
      rewrite E, L1, L2. auto.
Qed.

Lemma fixed_digits_two n :
  0 <= n ->
  exists whole cents,
    fixed_digits n 2 = whole ++ "." ++ cents
    /\ String.length cents = 2%nat
    /\ (1 <= String.length whole)%nat
    /\ digits_value (whole ++ cents) = Some n.
Proof.
  intros Hn. unfold fixed_digits.
  pose proof (digits_value_decimal n Hn) as Hv.
  assert (Hlen : (1 <= String.length (decimal n))%nat).
  { destruct (decimal n); [discriminate | cbn; lia]. }
  set (m := decimal n) in *. clearbody m.
  set (m' := if (String.length m <=? 2)%nat
             then pad (2 + 1 - String.length m) 0 ++ m else m).
  assert (H' : (3 <= String.length m')%nat /\ digits_value m' = Some n).
  { subst m'. destruct (Nat.leb_spec (String.length m) 2).
    - rewrite length_append, length_pad.
      split; [lia | apply digits_value_pad_zero, Hv].
    - split; [lia | exact Hv]. }
  destruct H' as [Hl' Hv']. clearbody m'.
  destruct (substring_split m' (String.length m' - 2) ltac:(lia))
    as (E & L1 & L2).
  replace (String.length m' - (String.length m' - 2))%nat with 2%nat in *
    by lia.
  eexists _, _. split; [reflexivity|].
  split; [exact L2|]. split; [lia|]. rewrite E. exact Hv'.
Qed.

Lemma nearest_scaled_is_nearest m e f :
  let D := 2 ^ Z.max 0 (- e) in
  let N := Z.pos m * 2 ^ Z.max 0 e in
  0 <= nearest_scaled m e f
  /\ - D <= 2 * (10 ^ Z.of_nat f * N - nearest_scaled m e f * D) < D.
Proof.
  intros D N. subst D N. unfold nearest_scaled.
  assert (Hp : 0 < 10 ^ Z.of_nat f) by (apply Z.pow_pos_nonneg; lia).
  destruct (Z.leb_spec 0 e) as [He|He].
  - rewrite Z.max_l, Z.max_r by lia. cbn [Z.pow].
    assert (0 < 2 ^ e) by (apply Z.pow_pos_nonneg; lia).
    split; nia.
  - rewrite Z.max_r, Z.max_l by lia. rewrite Z.pow_0_r.
    replace (1 - e) with (Z.succ (- e)) by lia.
    rewrite Z.pow_succ_r by lia.
    assert (HD : 0 < 2 ^ (- e)) by (apply Z.pow_pos_nonneg; lia).
    set (D := 2 ^ (- e)) in *. clearbody D.
    set (num := Z.pos m * 10 ^ Z.of_nat f).
    assert (0 < num) by (subst num; nia).
    replace (10 ^ Z.of_nat f * (Z.pos m * 1)) with num by (subst num; lia).
    clearbody num.
    pose proof (Z.div_mod (2 * num + D) (2 * D) ltac:(lia)) as Hdm.
    pose proof (Z.mod_pos_bound (2 * num + D) (2 * D) ltac:(lia)) as Hb.
    assert (0 <= (2 * num + D) / (2 * D)) by (apply Z.div_pos; lia).
    split; [assumption | nia].
Qed.

Section Shown.
Context {P : Platform}.

(** X16. A finite value below 10^21 in magnitude is shown with its
    sign, at least one digit, a point and exactly two digits; the digits
    write the whole number of hundredths nearest to the magnitude, the
    larger one when two are as near. *)
Theorem shown_value_is_nearest_hundredth x s m e :
  Prim2SF x = S754_finite s m e ->
  Z.pos m * 2 ^ e < 10 ^ 21 ->
  exists whole cents n,
    toFixed x 2 = (if s then "-" else "") ++ whole ++ "." ++ cents
    /\ String.length cents = 2%nat
    /\ (1 <= String.length whole)%nat
    /\ digits_value (whole ++ cents) = Some n
    /\ let D := 2 ^ Z.max 0 (- e) in
       let N := Z.pos m * 2 ^ Z.max 0 e in
       - D <= 2 * (100 * N - n * D) < D.
Proof.
  intros Hx Hlt. unfold toFixed. rewrite Hx.
  destruct (Z.leb_spec (10 ^ 21) (Z.pos m * 2 ^ e)) as [H|_]; [lia|].
  destruct (nearest_scaled_is_nearest m e 2) as [H0 Hr].
  destruct (fixed_digits_two _ H0) as (whole & cents & E & L1 & L2 & V).
  exists whole, cents, (nearest_scaled m e 2).
  rewrite E. repeat split; try assumption; apply Hr.
Qed.

End Shown.

Lemma shown_value_is_nearest_hundredth_witness :
  exists whole cents n,
    @toFixed tokyo (-0.00390625) 2 = "-" ++ whole ++ "." ++ cents
    /\ String.length cents = 2%nat
    /\ (1 <= String.length whole)%nat
    /\ digits_value (whole ++ cents) = Some n
    /\ - 2 ^ 60 <= 2 * (100 * 4503599627370496 - n * 2 ^ 60) < 2 ^ 60.
Proof.
  apply (@shown_value_is_nearest_hundredth tokyo (-0.00390625)%float
           true 4503599627370496 (-60)).
  - reflexivity.
  - reflexivity.
Defined.
